(** * dapplink-vrf: the transaction manager ([txmgr])

    A shallow embedding of [txmgr/send_state.go] and of the transaction
    manager ([Send], [waitMined], [CalcGasFeeCap]) and the properties of
    the specification checked against it.

    Conventions.
    - A Go [uint64] is a [Z] in [0, 2^64); every arithmetic operation of
      the source is followed by [wrap64].
    - A [*big.Int] is a [Z].
    - A [common.Hash] (32 bytes) is the 256-bit number it spells, a [Z].
    - [map[common.Hash]struct{}] is a finite set, [gset Hash].
    - A Go [error] is a record of what the code observes of it: its
      message and whether [errors.Is(err, context.Canceled)] holds; a
      possibly nil error is an [option error].
    - The mutex of [SendState] makes each method atomic; a method is a
      function on the state, and the concurrent driver interleaves whole
      method calls. *)

From Stdlib Require Import ZArith String Ascii List Bool Lia.
From stdpp Require Import base decidable gmap sets.

Local Open Scope Z_scope.
Import ListNotations.

(** ** Machine integers *)

Definition uint64_modulus : Z := 2 ^ 64.
Definition MaxUint64 : Z := uint64_modulus - 1.

Definition wrap64 (z : Z) : Z := z mod uint64_modulus.

Definition is_uint64 (z : Z) : Prop := 0 <= z < uint64_modulus.

(** [x + y] and [x - y] on [uint64]. *)
Definition add64 (x y : Z) : Z := wrap64 (x + y).
Definition sub64 (x y : Z) : Z := wrap64 (x - y).

(** ** Errors and strings *)

Record error : Type := mkError {
  Error : string;          (* err.Error() *)
  IsCanceled : bool        (* errors.Is(err, context.Canceled) *)
}.

(** [context.Canceled] and [context.DeadlineExceeded] of the Go library. *)
Definition Canceled : error :=
  {| Error := "context canceled"; IsCanceled := true |}.
Definition DeadlineExceeded : error :=
  {| Error := "context deadline exceeded"; IsCanceled := false |}.

(** [strings.HasPrefix(s, p)]. *)
Fixpoint HasPrefix (s p : string) {struct p} : bool :=
  match p with
  | EmptyString => true
  | String c p' =>
      match s with
      | EmptyString => false
      | String d s' => if Ascii.eqb c d then HasPrefix s' p' else false
      end
  end.

(** [strings.Contains(s, substr)]: [substr] occurs at some offset of [s]. *)
Fixpoint Contains (s substr : string) : bool :=
  if HasPrefix s substr then true
  else match s with
       | EmptyString => false
       | String _ s' => Contains s' substr
       end.

(** ** Results of code that may panic *)

Inductive result (A : Type) : Type :=
| Ok (a : A)
| Panic (msg : string).
Arguments Ok {A} a.
Arguments Panic {A} msg.

(** [time.NewTicker(d)] panics on an interval that is not positive.
    The ticker itself lives in the environment: its ticks are answers
    and events of the step functions below. *)
Definition NewTicker (d : Z) : result unit :=
  if d <=? 0 then Panic "non-positive interval for NewTicker" else Ok tt.

(** ** [txmgr/send_state.go] *)

Definition Hash : Type := Z.

Record SendState : Type := mkSendState {
  minedTxs : gset Z;
  nonceTooLowCount : Z;
  safeAbortNonceTooLowCount : Z
}.

(** [NewSendState], send_state.go lines 18-27. *)
Definition NewSendState (safeAbortNonceTooLowCount : Z) : result SendState :=
  if safeAbortNonceTooLowCount =? 0
  then Panic "txmgr: safeAbortNonceTooLowCount must be > 0"
  else Ok {| minedTxs := ∅;
             nonceTooLowCount := 0;
             safeAbortNonceTooLowCount := safeAbortNonceTooLowCount |}.

Section SendStateOps.

(** [core.ErrNonceTooLow] of go-ethereum: the sentinel whose message
    [ProcessSendError] looks for. It is declared outside this
    repository, so it is a parameter of the development. *)
Variable ErrNonceTooLow : error.

(** [ProcessSendError], send_state.go lines 30-43. *)
Definition ProcessSendError (s : SendState) (err : option error) : SendState :=
  match err with
  | None => s
  | Some e =>
      if negb (Contains (Error e) (Error ErrNonceTooLow)) then s
      else {| minedTxs := minedTxs s;
              nonceTooLowCount := add64 (nonceTooLowCount s) 1;
              safeAbortNonceTooLowCount := safeAbortNonceTooLowCount s |}
  end.

End SendStateOps.

(** [TxMined], send_state.go lines 45-50. *)
Definition TxMined (s : SendState) (txHash : Hash) : SendState :=
  {| minedTxs := {[ txHash ]} ∪ minedTxs s;
     nonceTooLowCount := nonceTooLowCount s;
     safeAbortNonceTooLowCount := safeAbortNonceTooLowCount s |}.

(** [TxNotMined], send_state.go lines 52-62: [wasMined] is read before
    the [delete], the length after it. *)
Definition TxNotMined (s : SendState) (txHash : Hash) : SendState :=
  let wasMined := bool_decide (txHash ∈ minedTxs s) in
  let minedTxs' := minedTxs s ∖ {[ txHash ]} in
  if (size minedTxs' =? 0)%nat && wasMined
  then {| minedTxs := minedTxs';
          nonceTooLowCount := 0;
          safeAbortNonceTooLowCount := safeAbortNonceTooLowCount s |}
  else {| minedTxs := minedTxs';
          nonceTooLowCount := nonceTooLowCount s;
          safeAbortNonceTooLowCount := safeAbortNonceTooLowCount s |}.

(** [ShouldAbortImmediately], send_state.go lines 65-74. *)
Definition ShouldAbortImmediately (s : SendState) : bool :=
  if (0 <? size (minedTxs s))%nat then false
  else safeAbortNonceTooLowCount s <=? nonceTooLowCount s.

(** [IsWaitingForConfirmation], send_state.go lines 76-80. *)
Definition IsWaitingForConfirmation (s : SendState) : bool :=
  (0 <? size (minedTxs s))%nat.

(** ** The transaction manager: data *)

Record Config : Type := mkConfig {
  ResubmissionTimeout : Z;
  ReceiptQueryInterval : Z;
  NumConfirmations : Z;
  SafeAbortNonceTooLowCount : Z
}.

(** What the manager reads of a [*types.Transaction] and of a
    [*types.Receipt]. *)
Record Transaction : Type := mkTransaction {
  TxHash : Hash;
  Nonce : Z;
  GasTipCap : Z;
  GasFeeCap : Z
}.

Record Receipt : Type := mkReceipt {
  ReceiptTxHash : Hash;
  BlockNumber : Z
}.

(** The method [Uint64] of a [big.Int]: the low 64 bits of the magnitude. *)
Definition Uint64 (x : Z) : Z := wrap64 (Z.abs x).

(** The backend and the logger are fields of the manager that the model
    places in the environment: the answers of the backend are inputs of
    the step functions below, the log lines are their outputs. *)
Record SimpleTxManager : Type := mkSimpleTxManager {
  cfg : Config
}.

(** [NewSimpleTxManager], txmgr lines 41-49. *)
Definition NewSimpleTxManager (cfg : Config) : result SimpleTxManager :=
  if NumConfirmations cfg =? 0
  then Panic "txmgr: NumConfirmations must be > 0"
  else Ok {| cfg := cfg |}.

(** [CalcGasFeeCap], txmgr lines 208-213:
    [Add(gasTipCap, Mul(baseFee, NewInt(2)))]. *)
Definition CalcGasFeeCap (baseFee gasTipCap : Z) : Z :=
  Z.add gasTipCap (Z.mul baseFee 2).

(** ** Log lines *)

Inductive LogLine : Type :=
| LogUpdateGasPriceFail (err : error)
| LogPublishing (tx : Transaction)
| LogUnableToPublish (err : error)
| LogPublished (tx : Transaction)
| LogSendTxFailed (tx : Transaction) (err : error)
| LogSendTxSucceeded (tx : Transaction)
| LogUnableToFetchBlockNumber (err : error)
| LogMinedCheckingConfirmations (txHash : Hash) (txHeight tipHeight numConfirmations : Z)
| LogTransactionConfirmed (txHash : Hash)
| LogNotYetConfirmed (txHash : Hash) (confsRemaining : Z)
| LogReceiptRetrieveFailed (txHash : Hash) (err : error)
| LogNotYetMined (txHash : Hash).

(** ** What the environment answers

    Every call that leaves the manager (the two hooks of the caller, the
    two methods of the backend) and every [select] is resolved by the
    environment. *)

Inductive envResp : Type :=
| RStep                                                 (* a step that asks nothing *)
| RGasPrice (res : Transaction + error)                 (* updateGasPrice(ctxc) *)
| RSendTx (err : option error)                          (* sendTx(ctxc, tx) *)
| RReceipt (receipt : option Receipt) (err : option error) (* backend.TransactionReceipt *)
| RBlockNumber (tipHeight : Z) (err : option error)     (* backend.BlockNumber *)
| RSelectTick                                           (* select takes <-queryTicker.C *)
| RSelectDone.                                          (* select takes <-ctx.Done() *)

(** ** [waitMined]

    The loop is cut at its calls to the outside. [wpc] names the place
    the waiter is at. *)

Inductive wpc : Type :=
| WQuery                                   (* backend.TransactionReceipt(ctx, txHash) *)
| WClassify (receipt : option Receipt) (err : option error)   (* the switch *)
| WTip (receipt : Receipt)                 (* backend.BlockNumber(ctx) *)
| WSelect                                  (* the select that ends an iteration *)
| WReturn (receipt : option Receipt) (err : option error).

(** The confirmation test [txHeight+numConfirmations <= tipHeight+1]. *)
Definition confirmed (numConfirmations txHeight tipHeight : Z) : bool :=
  add64 txHeight numConfirmations <=? add64 tipHeight 1.

Definition confsRemaining (numConfirmations txHeight tipHeight : Z) : Z :=
  sub64 (add64 txHeight numConfirmations) (add64 tipHeight 1).

(** [sendState != nil] guards both reports. *)
Definition report (f : SendState -> Hash -> SendState)
    (sendState : option SendState) (txHash : Hash) : option SendState :=
  match sendState with
  | Some s => Some (f s txHash)
  | None => None
  end.

(** One step of [waitMined], txmgr lines 160-205. [ctx] is [ctx.Err()]: [None] while the
    context is live. The result is [None] when the answer does not fit
    the place, or when the waiter has returned. *)
Definition wstep (numConfirmations : Z) (txHash : Hash) (ctx : option error)
    (pc : wpc) (resp : envResp) (sendState : option SendState)
  : option (wpc * option SendState * list LogLine) :=
  match pc, resp with
  | WQuery, RReceipt receipt err =>
      Some (WClassify receipt err, sendState, [])
  | WClassify (Some receipt) _, RStep =>
      Some (WTip receipt, report TxMined sendState txHash, [])
  | WClassify None (Some err), RStep =>
      Some (WSelect, sendState, [LogReceiptRetrieveFailed txHash err])
  | WClassify None None, RStep =>
      Some (WSelect, report TxNotMined sendState txHash, [LogNotYetMined txHash])
  | WTip receipt, RBlockNumber tipHeight err =>
      let txHeight := Uint64 (BlockNumber receipt) in
      match err with
      | Some e => Some (WSelect, sendState, [LogUnableToFetchBlockNumber e])
      | None =>
          let checking :=
            LogMinedCheckingConfirmations txHash txHeight tipHeight numConfirmations in
          if confirmed numConfirmations txHeight tipHeight
          then Some (WReturn (Some receipt) None, sendState,
                     [checking; LogTransactionConfirmed txHash])
          else Some (WSelect, sendState,
                     [checking;
                      LogNotYetConfirmed txHash
                        (confsRemaining numConfirmations txHeight tipHeight)])
      end
  | WSelect, RSelectDone =>
      match ctx with
      | Some e => Some (WReturn None (Some e), sendState, [])
      | None => None
      end
  | WSelect, RSelectTick => Some (WQuery, sendState, [])
  | _, _ => None
  end.

(** A run of [waitMined] against a script of context states and
    answers, from a given place. *)
Fixpoint wrun (numConfirmations : Z) (txHash : Hash)
    (script : list (option error * envResp))
    (pc : wpc) (sendState : option SendState) (log : list LogLine)
  : option (wpc * option SendState * list LogLine) :=
  match script with
  | [] => Some (pc, sendState, log)
  | (ctx, resp) :: script' =>
      match wstep numConfirmations txHash ctx pc resp sendState with
      | Some (pc', sendState', out) =>
          wrun numConfirmations txHash script' pc' sendState' (log ++ out)
      | None => None
      end
  end.

(** [waitMined], txmgr lines 147-206: the ticker of line 155 is made
    first, and the call panics when [queryInterval] is not positive;
    then the loop runs against the script. *)
Definition waitMined (tx : Transaction) (queryInterval numConfirmations : Z)
    (sendState : option SendState) (script : list (option error * envResp))
  : result (option (wpc * option SendState * list LogLine)) :=
  match NewTicker queryInterval with
  | Panic msg => Panic msg
  | Ok _ => Ok (wrun numConfirmations (TxHash tx) script WQuery sendState [])
  end.

(** [WaitMined] is [waitMined] without a [SendState]. *)
Definition WaitMined (tx : Transaction) (queryInterval numConfirmations : Z)
    (script : list (option error * envResp))
  : result (option (wpc * option SendState * list LogLine)) :=
  waitMined tx queryInterval numConfirmations None script.

(** ** [Send]

    [Send] runs a main loop and one goroutine per submission attempt.
    They share the [SendState], the derived context [ctxc] and the
    one-slot channel [receiptChan]. The model is an interleaving of
    steps: an event names who moves and what the environment answers. *)

(** The test the attempt applies to an error of a hook:
    [errors.Is(err, context.Canceled) ||
     strings.Contains(err.Error(), "context canceled")]. *)
Definition isCancelErr (err : error) : bool :=
  IsCanceled err || Contains (Error err) "context canceled".

(** The places of [sendTxAsync]. *)
Inductive apc : Type :=
| AUpdateGasPrice                                   (* tx, err := updateGasPrice(ctxc) *)
| ASendTx (tx : Transaction)                        (* err = sendTx(ctxc, tx) *)
| AProcessSendError (tx : Transaction) (err : option error)
| ACheckSendError (tx : Transaction) (err : option error) (* if err != nil { ... } *)
| ACancel                                           (* cancel(); return *)
| AWait (tx : Transaction) (w : wpc)                (* inside waitMined *)
| ADeliver (tx : Transaction) (receipt : Receipt)   (* select { case receiptChan <- receipt: default: } *)
| ADone
| APanic (msg : string).                            (* the goroutine panicked: the process is gone *)

(** The places of the main goroutine. [res] is the pair that the
    [return] statement has fixed; the deferred [cancel()] and
    [wg.Wait()] follow. *)
Inductive mpc : Type :=
| MSelect
| MCancel (res : option Receipt * option error)
| MWait (res : option Receipt * option error)
| MReturned (res : option Receipt * option error).

Record Driver : Type := mkDriver {
  sendState : SendState;
  ctxc : option error;              (* ctxc.Err() *)
  parent : option error;            (* ctx.Err() of the caller's context *)
  receiptChan : option Receipt;     (* the buffer of capacity 1 *)
  attempts : list apc;              (* the goroutines counted by wg *)
  main : mpc;
  logs : list LogLine
}.

Inductive event : Type :=
| EvTick                              (* the main select takes <-ticker.C *)
| EvCtxDone                           (* the main select takes <-ctxc.Done() *)
| EvReceipt                           (* the main select takes <-receiptChan *)
| EvDefer                             (* the next deferred call of Send *)
| EvParent (err : error)              (* the caller's context ends with err *)
| EvAttempt (i : nat) (resp : envResp). (* attempt i moves *)

(** [cancel()]: the first error sticks. *)
Definition cancel (ctx : option error) : option error :=
  match ctx with
  | Some e => Some e
  | None => Some Canceled
  end.

(** The panic of the first attempt that has panicked, if any. *)
Fixpoint crashed (l : list apc) : option string :=
  match l with
  | [] => None
  | APanic msg :: _ => Some msg
  | _ :: l' => crashed l'
  end.

Definition allDone (l : list apc) : bool :=
  forallb (fun pc => match pc with ADone => true | _ => false end) l.

Section Driver.

Variable ErrNonceTooLow : error.
Variable m : SimpleTxManager.

(** The shared part of the state after attempt [i] moved to [pc']. *)
Definition moved (d : Driver) (i : nat) (pc' : apc) (s : SendState)
    (cx : option error) (ch : option Receipt) (out : list LogLine) : Driver :=
  {| sendState := s; ctxc := cx; parent := parent d; receiptChan := ch;
     attempts := <[ i := pc' ]> (attempts d); main := main d;
     logs := logs d ++ out |}.

Definition goes (d : Driver) (i : nat) (pc' : apc) (out : list LogLine) : Driver :=
  moved d i pc' (sendState d) (ctxc d) (receiptChan d) out.

(** One step of attempt [i], which is at [pc]: [sendTxAsync], txmgr
    lines 61-112. *)
Definition astep (d : Driver) (i : nat) (pc : apc) (resp : envResp)
  : option Driver :=
  match pc, resp with
  | AUpdateGasPrice, RGasPrice (inr err) =>
      if isCancelErr err then Some (goes d i ADone [])
      else Some (goes d i ACancel [LogUpdateGasPriceFail err])
  | AUpdateGasPrice, RGasPrice (inl tx) =>
      Some (goes d i (ASendTx tx) [LogPublishing tx])
  | ASendTx tx, RSendTx err =>
      Some (goes d i (AProcessSendError tx err) [])
  | AProcessSendError tx err, RStep =>
      Some (moved d i (ACheckSendError tx err)
              (ProcessSendError ErrNonceTooLow (sendState d) err)
              (ctxc d) (receiptChan d) [])
  | ACheckSendError tx (Some err), RStep =>
      if isCancelErr err then Some (goes d i ADone [])
      else if ShouldAbortImmediately (sendState d)
           then Some (goes d i ACancel [LogUnableToPublish err])
           else Some (goes d i ADone [LogUnableToPublish err])
  | ACheckSendError tx None, RStep =>
      (* waitMined begins with time.NewTicker(queryInterval), line 155 *)
      match NewTicker (ReceiptQueryInterval (cfg m)) with
      | Panic msg => Some (goes d i (APanic msg) [LogPublished tx])
      | Ok _ => Some (goes d i (AWait tx WQuery) [LogPublished tx])
      end
  | ACancel, RStep =>
      Some (moved d i ADone (sendState d) (cancel (ctxc d))
              (receiptChan d) [])
  | AWait tx (WReturn receipt err), RStep =>
      let out := match err with
                 | Some e => [LogSendTxFailed tx e]
                 | None => []
                 end in
      match receipt with
      | Some r => Some (goes d i (ADeliver tx r) out)
      | None => Some (goes d i ADone out)
      end
  | AWait tx w, _ =>
      match wstep (NumConfirmations (cfg m)) (TxHash tx) (ctxc d) w resp
              (Some (sendState d)) with
      | Some (w', Some s', out) =>
          Some (moved d i (AWait tx w') s' (ctxc d) (receiptChan d) out)
      | _ => None
      end
  | ADeliver tx r, RStep =>
      match receiptChan d with
      | None => Some (moved d i ADone (sendState d) (ctxc d) (Some r)
                        [LogSendTxSucceeded tx])
      | Some _ => Some (goes d i ADone [])
      end
  | _, _ => None
  end.

Definition withMain (d : Driver) (pc' : mpc) (cx : option error)
    (ch : option Receipt) (att : list apc) : Driver :=
  {| sendState := sendState d; ctxc := cx; parent := parent d;
     receiptChan := ch; attempts := att; main := pc';
     logs := logs d |}.

(** One step of the whole of [Send]: the loop of lines 119-132 and the
    deferred calls, the caller's context, or one attempt. *)
Definition step (d : Driver) (ev : event) : option Driver :=
  match ev with
  | EvTick =>
      match main d with
      | MSelect =>
          if IsWaitingForConfirmation (sendState d) then Some d
          else Some (withMain d MSelect (ctxc d) (receiptChan d)
                       (attempts d ++ [AUpdateGasPrice]))
      | _ => None
      end
  | EvCtxDone =>
      match main d, ctxc d with
      | MSelect, Some e =>
          Some (withMain d (MCancel (None, Some e)) (ctxc d) (receiptChan d)
                  (attempts d))
      | _, _ => None
      end
  | EvReceipt =>
      match main d, receiptChan d with
      | MSelect, Some r =>
          Some (withMain d (MCancel (Some r, None)) (ctxc d) None (attempts d))
      | _, _ => None
      end
  | EvDefer =>
      match main d with
      | MCancel res =>
          Some (withMain d (MWait res) (cancel (ctxc d)) (receiptChan d)
                  (attempts d))
      | MWait res =>
          if allDone (attempts d)
          then Some (withMain d (MReturned res) (ctxc d) (receiptChan d)
                       (attempts d))
          else None
      | _ => None
      end
  | EvParent err =>
      match parent d with
      | Some _ => None
      | None =>
          Some {| sendState := sendState d;
                  ctxc := match ctxc d with Some e => Some e | None => Some err end;
                  parent := Some err; receiptChan := receiptChan d;
                  attempts := attempts d; main := main d;
                  logs := logs d |}
      end
  | EvAttempt i resp =>
      match attempts d !! i with
      | Some pc => astep d i pc resp
      | None => None
      end
  end.

Fixpoint run (d : Driver) (evs : list event) : option Driver :=
  match evs with
  | [] => Some d
  | ev :: evs' =>
      match step d ev with
      | Some d' => run d' evs'
      | None => None
      end
  end.

(** The start of [Send]: the [SendState] is built (or the call
    panics), the context is derived from the caller's, the first
    attempt is spawned. [ctx] is the caller's [ctx.Err()] at the call. *)
Definition SendStart (ctx : option error) : result Driver :=
  match NewSendState (SafeAbortNonceTooLowCount (cfg m)) with
  | Panic msg => Panic msg
  | Ok s =>
      Ok {| sendState := s; ctxc := ctx; parent := ctx; receiptChan := None;
            attempts := [AUpdateGasPrice]; main := MSelect;
            logs := [] |}
  end.

(** [Send] against a schedule: [Ok (Some res)] when the call returned
    [res], [Ok None] when the schedule is not one of the code or ends
    before the return, [Panic] when the call panicked: in
    [NewSendState] (line 58), in the [time.NewTicker] of line 116,
    which comes after the first attempt is spawned, or in an attempt
    (line 155). A panic of an attempt ends the process: whatever the
    schedule has after it, the call does not return. *)
Definition returned (d : Driver) : option (option Receipt * option error) :=
  match main d with
  | MReturned res => Some res
  | _ => None
  end.

Definition Send (ctx : option error) (evs : list event)
  : result (option (option Receipt * option error)) :=
  match SendStart ctx with
  | Panic msg => Panic msg
  | Ok d0 =>
      match NewTicker (ResubmissionTimeout (cfg m)) with
      | Panic msg => Panic msg
      | Ok _ =>
          match run d0 evs with
          | Some d =>
              match crashed (attempts d) with
              | Some msg => Panic msg
              | None => Ok (returned d)
              end
          | None => Ok None
          end
      end
  end.

End Driver.

(** ** Reachable states of a [SendState]

    The states that a [SendState] built with [threshold] takes under any
    finite sequence of its three mutators. *)

Inductive reachable (ErrNonceTooLow : error) (threshold : Z) : SendState -> Prop :=
| reachable_new (s : SendState) :
    NewSendState threshold = Ok s ->
    reachable ErrNonceTooLow threshold s
| reachable_ProcessSendError (s : SendState) (err : option error) :
    reachable ErrNonceTooLow threshold s ->
    reachable ErrNonceTooLow threshold (ProcessSendError ErrNonceTooLow s err)
| reachable_TxMined (s : SendState) (txHash : Hash) :
    reachable ErrNonceTooLow threshold s ->
    reachable ErrNonceTooLow threshold (TxMined s txHash)
| reachable_TxNotMined (s : SendState) (txHash : Hash) :
    reachable ErrNonceTooLow threshold s ->
    reachable ErrNonceTooLow threshold (TxNotMined s txHash).

(** The error is a [NonceTooLow] one: it is not nil and its message
    holds the message of the sentinel. *)
Definition nonceTooLow (ErrNonceTooLow : error) (err : option error) : Prop :=
  exists e a b,
    err = Some e /\
    Error e = String.append a (String.append (Error ErrNonceTooLow) b).

(** ** What a run of [Send] has established

    [past] is the schedule run so far from the start [d0]. *)

Section History.

Variable ErrNonceTooLow : error.
Variable m : SimpleTxManager.
Variable d0 : Driver.

(** [waitMined] returned [r] in some attempt: at some point of the
    schedule an attempt stood at the tip fetch with [r] in hand, and
    the backend answered a tip that passes the confirmation test. *)
Definition acceptedBy (past : list event) (r : Receipt) : Prop :=
  exists p1 p2 d1 i tx tipHeight,
    past = p1 ++ EvAttempt i (RBlockNumber tipHeight None) :: p2 /\
    run ErrNonceTooLow m d0 p1 = Some d1 /\
    attempts d1 !! i = Some (AWait tx (WTip r)) /\
    confirmed (NumConfirmations (cfg m)) (Uint64 (BlockNumber r)) tipHeight
      = true.

(** An error of the derived context: [context.Canceled] of a
    [cancel()], or the error the caller's context ended with. *)
Definition ctxErrOK (past : list event) (e : error) : Prop :=
  e = Canceled \/ parent d0 = Some e \/ In (EvParent e) past.

Definition goodResult (past : list event)
    (res : option Receipt * option error) : Prop :=
  (exists r, res = (Some r, None) /\ acceptedBy past r) \/
  (exists e, res = (None, Some e) /\ ctxErrOK past e).

(** The receipt an attempt carries out of [waitMined]. *)
Definition holdsReceipt (pc : apc) : option Receipt :=
  match pc with
  | AWait _ (WReturn (Some r) _) => Some r
  | ADeliver _ r => Some r
  | _ => None
  end.

Definition mainResult (pc : mpc) : option (option Receipt * option error) :=
  match pc with
  | MSelect => None
  | MCancel res | MWait res | MReturned res => Some res
  end.

Definition Inv (past : list event) (d : Driver) : Prop :=
  run ErrNonceTooLow m d0 past = Some d /\
  (forall r, receiptChan d = Some r -> acceptedBy past r) /\
  Forall (fun pc => forall r, holdsReceipt pc = Some r -> acceptedBy past r)
         (attempts d) /\
  (forall e, ctxc d = Some e -> ctxErrOK past e) /\
  (forall e, parent d = Some e -> parent d0 = Some e \/ In (EvParent e) past) /\
  (forall res, mainResult (main d) = Some res -> goodResult past res).

End History.

(** ** Concrete runs

    The values and schedules of the scenarios used as examples below. *)

(** The sentinel as go-ethereum declares it. *)
Definition gethErrNonceTooLow : error :=
  {| Error := "nonce too low"; IsCanceled := false |}.

Definition rpcNonceTooLow : error :=
  {| Error := "rpc error: nonce too low: next nonce 7"; IsCanceled := false |}.

Definition rpcUnavailable : error :=
  {| Error := "connection refused"; IsCanceled := false |}.

Definition cfg6 : Config :=
  {| ResubmissionTimeout := 48000; ReceiptQueryInterval := 1000;
     NumConfirmations := 6; SafeAbortNonceTooLowCount := 3 |}.

Definition mgr6 : SimpleTxManager := {| cfg := cfg6 |}.

Definition tx1 : Transaction :=
  {| TxHash := 7; Nonce := 0; GasTipCap := 1; GasFeeCap := 100 |}.

Definition receipt1 : Receipt := {| ReceiptTxHash := 7; BlockNumber := 100 |}.

(** The first attempt is mined at block 100 and the tip is 105. *)
Definition scheduleFirstTry : list event :=
  [ EvAttempt 0 (RGasPrice (inl tx1));
    EvAttempt 0 (RSendTx None);
    EvAttempt 0 RStep;
    EvAttempt 0 RStep;
    EvAttempt 0 (RReceipt (Some receipt1) None);
    EvAttempt 0 RStep;
    EvAttempt 0 (RBlockNumber 105 None);
    EvAttempt 0 RStep;
    EvAttempt 0 RStep;
    EvReceipt;
    EvDefer;
    EvDefer ].

(** One attempt that the backend refuses with a nonce that is too low. *)
Definition refusedAttempt (i : nat) : list event :=
  [ EvAttempt i (RGasPrice (inl tx1));
    EvAttempt i (RSendTx (Some rpcNonceTooLow));
    EvAttempt i RStep;
    EvAttempt i RStep ].

(** Three refused attempts one tick apart; the third one cancels. *)
Definition scheduleNonceAbort : list event :=
  refusedAttempt 0 ++ [EvTick] ++ refusedAttempt 1 ++ [EvTick] ++
  refusedAttempt 2 ++ [EvAttempt 2 RStep; EvCtxDone; EvDefer; EvDefer].

(** The hook that prices the transaction fails at once. *)
Definition scheduleGasPriceFails : list event :=
  [ EvAttempt 0 (RGasPrice (inr rpcUnavailable));
    EvAttempt 0 RStep;
    EvCtxDone;
    EvDefer;
    EvDefer ].

(** The caller's deadline passes while the first attempt is priced. *)
Definition scheduleDeadline : list event :=
  [ EvParent DeadlineExceeded;
    EvAttempt 0 (RGasPrice (inr DeadlineExceeded));
    EvAttempt 0 RStep;
    EvCtxDone;
    EvDefer;
    EvDefer ].

(** A driver whose first attempt has seen its receipt and waits for
    confirmations. *)
Definition ripening : Driver :=
  {| sendState := {| minedTxs := {[ 7 ]}; nonceTooLowCount := 0;
                     safeAbortNonceTooLowCount := 3 |};
     ctxc := None; parent := None; receiptChan := None;
     attempts := [AWait tx1 WSelect]; main := MSelect; logs := [] |}.

(** A manager that asks for [MaxUint64] confirmations, and a run in
    which the receipt is in block 1 and the tip is 1. *)
Definition mgrMax : SimpleTxManager :=
  {| cfg := {| ResubmissionTimeout := 48000; ReceiptQueryInterval := 1000;
               NumConfirmations := MaxUint64;
               SafeAbortNonceTooLowCount := 3 |} |}.

Definition receiptEarly : Receipt := {| ReceiptTxHash := 7; BlockNumber := 1 |}.

Definition scheduleWrap : list event :=
  [ EvAttempt 0 (RGasPrice (inl tx1));
    EvAttempt 0 (RSendTx None);
    EvAttempt 0 RStep;
    EvAttempt 0 RStep;
    EvAttempt 0 (RReceipt (Some receiptEarly) None);
    EvAttempt 0 RStep;
    EvAttempt 0 (RBlockNumber 1 None);
    EvAttempt 0 RStep;
    EvAttempt 0 RStep;
    EvReceipt;
    EvDefer;
    EvDefer ].

(** A [SendState] with threshold 3, fresh and after three refusals. *)
Definition fresh3 : SendState :=
  {| minedTxs := ∅; nonceTooLowCount := 0; safeAbortNonceTooLowCount := 3 |}.

Definition refusedThrice : SendState :=
  ProcessSendError gethErrNonceTooLow
    (ProcessSendError gethErrNonceTooLow
       (ProcessSendError gethErrNonceTooLow fresh3 (Some rpcNonceTooLow))
       (Some rpcNonceTooLow))
    (Some rpcNonceTooLow).

(** ** Histories of a [SendState]

    The calls a [SendState] receives, in the order in which its mutex
    admits them. *)

Inductive StateOp : Type :=
| OpProcessSendError (err : option error)
| OpTxMined (txHash : Hash)
| OpTxNotMined (txHash : Hash).

Definition applyOp (ErrNonceTooLow : error) (s : SendState) (op : StateOp)
  : SendState :=
  match op with
  | OpProcessSendError err => ProcessSendError ErrNonceTooLow s err
  | OpTxMined h => TxMined s h
  | OpTxNotMined h => TxNotMined s h
  end.

Definition applyOps (ErrNonceTooLow : error) (s : SendState)
    (ops : list StateOp) : SendState :=
  fold_left (applyOp ErrNonceTooLow) ops s.

(** The calls of a history that carry a [NonceTooLow] error. *)
Definition isRefusal (ErrNonceTooLow : error) (op : StateOp) : bool :=
  match op with
  | OpProcessSendError (Some e) => Contains (Error e) (Error ErrNonceTooLow)
  | _ => false
  end.

Definition refusals (ErrNonceTooLow : error) (ops : list StateOp) : Z :=
  Z.of_nat (length (filter (fun op => isRefusal ErrNonceTooLow op = true) ops)).

(** The condition under which [TxNotMined h] clears the counter, on the
    set before the call: [h] is there and nothing else is. *)
Definition resetsCounter (mined : gset Z) (h : Hash) : Prop :=
  h ∈ mined /\ mined ∖ {[ h ]} = ∅.

(** The receipt a waiter has in hand at a place. *)
Definition carried (pc : wpc) : option Receipt :=
  match pc with
  | WClassify (Some r) _ => Some r
  | WTip r => Some r
  | WReturn (Some r) _ => Some r
  | _ => None
  end.

(** A script that makes a waiter with a [SendState] see its receipt and
    then lose it. *)
Definition scriptReorg : list (option error * envResp) :=
  [ (None, RReceipt (Some receipt1) None); (None, RStep);
    (None, RBlockNumber 100 None); (None, RSelectTick);
    (None, RReceipt None None); (None, RStep) ].

(** A script that ends with the cancellation of the context. *)
Definition scriptCancelled : list (option error * envResp) :=
  [ (None, RReceipt None (Some rpcUnavailable)); (None, RStep);
    (Some Canceled, RSelectDone) ].

(** [Send] called with a context whose deadline has passed. *)
Definition startedExpired : Driver :=
  {| sendState := fresh3; ctxc := Some DeadlineExceeded;
     parent := Some DeadlineExceeded; receiptChan := None;
     attempts := [AUpdateGasPrice]; main := MSelect; logs := [] |}.

(** Two attempts were confirmed; the first has delivered its receipt,
    the second is about to. *)
Definition tx2 : Transaction :=
  {| TxHash := 8; Nonce := 0; GasTipCap := 2; GasFeeCap := 200 |}.

Definition receipt2 : Receipt := {| ReceiptTxHash := 8; BlockNumber := 100 |}.

Definition delivered : Driver :=
  {| sendState := {| minedTxs := {[ 7 ]} ∪ {[ 8 ]}; nonceTooLowCount := 0;
                     safeAbortNonceTooLowCount := 3 |};
     ctxc := None; parent := None; receiptChan := Some receipt1;
     attempts := [ADone; ADeliver tx2 receipt2]; main := MSelect; logs := [] |}.

Definition scheduleSecondDelivery : list event :=
  [ EvAttempt 1 RStep; EvReceipt; EvDefer; EvDefer ].

(** ** Why a [Send] is cancelled from inside *)

(** The answers of [sendTx] that carry a [NonceTooLow] error. *)
Definition isSendRefusal (ErrNonceTooLow : error) (ev : event) : bool :=
  match ev with
  | EvAttempt _ (RSendTx (Some e)) => Contains (Error e) (Error ErrNonceTooLow)
  | _ => false
  end.

Definition sendRefusals (ErrNonceTooLow : error) (evs : list event) : Z :=
  Z.of_nat (length (filter (fun ev => isSendRefusal ErrNonceTooLow ev = true) evs)).

(** [updateGasPrice] failed with an error that is not a cancellation. *)
Definition gasPriceFailed (evs : list event) : Prop :=
  exists i err, In (EvAttempt i (RGasPrice (inr err))) evs /\
                isCancelErr err = false.

(** The two reasons for which an attempt calls [cancel()]. *)
Definition abortCause (ErrNonceTooLow : error) (m : SimpleTxManager)
    (evs : list event) : Prop :=
  gasPriceFailed evs \/
  SafeAbortNonceTooLowCount (cfg m) <= sendRefusals ErrNonceTooLow evs.

(** An attempt that holds a [NonceTooLow] error of [sendTx] which it
    has not yet given to [ProcessSendError]. *)
Definition pendingOf (ErrNonceTooLow : error) (pc : apc) : Z :=
  match pc with
  | AProcessSendError _ (Some e) =>
      if Contains (Error e) (Error ErrNonceTooLow) then 1 else 0
  | _ => 0
  end.

Definition pending (ErrNonceTooLow : error) (l : list apc) : Z :=
  fold_right (fun pc acc => pendingOf ErrNonceTooLow pc + acc) 0 l.

Section Causes.

Variable ErrNonceTooLow : error.
Variable m : SimpleTxManager.
Variable d0 : Driver.

(** The error of the derived context is accounted for: it is the one
    the caller's context ended with, or it is [context.Canceled] and an
    attempt had a reason to cancel. *)
Definition okErr (past : list event) (e : error) : Prop :=
  parent d0 = Some e \/ In (EvParent e) past \/
  (e = Canceled /\ abortCause ErrNonceTooLow m past).

Definition Accounted (past : list event) (d : Driver) : Prop :=
  0 <= nonceTooLowCount (sendState d) /\
  nonceTooLowCount (sendState d) + pending ErrNonceTooLow (attempts d)
    <= sendRefusals ErrNonceTooLow past /\
  safeAbortNonceTooLowCount (sendState d) = SafeAbortNonceTooLowCount (cfg m) /\
  Forall (fun pc => pc = ACancel -> abortCause ErrNonceTooLow m past)
         (attempts d) /\
  (main d = MSelect -> forall e, ctxc d = Some e -> okErr past e) /\
  (forall e, mainResult (main d) = Some (None, Some e) -> okErr past e).

End Causes.

(** ** Winding an attempt down

    Once the context is cancelled, these are answers of the hooks and
    of the backend with which an attempt comes to its end: the hooks
    report the cancellation, the backend fails, the [select] takes the
    [Done] branch. [stepsLeft] bounds the steps the attempt still
    takes. *)

Definition isPanic (pc : apc) : bool :=
  match pc with
  | APanic _ => true
  | _ => false
  end.

Definition windDown (pc : apc) : envResp :=
  match pc with
  | AUpdateGasPrice => RGasPrice (inr Canceled)
  | ASendTx _ => RSendTx (Some Canceled)
  | AWait _ WQuery => RReceipt None (Some Canceled)
  | AWait _ (WTip _) => RBlockNumber 0 (Some Canceled)
  | AWait _ WSelect => RSelectDone
  | _ => RStep
  end.

Definition stepsLeft (pc : apc) : nat :=
  match pc with
  | ADone | APanic _ => 0
  | ADeliver _ _ | ACancel | AUpdateGasPrice => 1
  | ACheckSendError _ (Some _) => 2
  | AProcessSendError _ (Some _) => 3
  | ASendTx _ => 4
  | AWait _ (WReturn _ _) => 2
  | AWait _ WSelect => 3
  | AWait _ (WTip _) | AWait _ (WClassify None _) => 4
  | AWait _ (WClassify (Some _) _) | AWait _ WQuery => 5
  | ACheckSendError _ None => 6
  | AProcessSendError _ None => 7
  end.

(** A run that stops while the first attempt waits for confirmations
    and a second one has just been refused a tick. *)
Definition scheduleMidway : list event :=
  [ EvAttempt 0 (RGasPrice (inl tx1));
    EvAttempt 0 (RSendTx None);
    EvAttempt 0 RStep;
    EvAttempt 0 RStep;
    EvAttempt 0 (RReceipt (Some receipt1) None);
    EvAttempt 0 RStep;
    EvTick ].

(** ** The hashes a [Send] knows *)

(** The transaction an attempt works on. *)
Definition txOf (pc : apc) : option Transaction :=
  match pc with
  | ASendTx tx | AProcessSendError tx _ | ACheckSendError tx _
  | AWait tx _ | ADeliver tx _ => Some tx
  | AUpdateGasPrice | ACancel | ADone | APanic _ => None
  end.

(** [h] is the hash of a transaction that [updateGasPrice] has
    answered. *)
Definition pricedIn (evs : list event) (h : Hash) : Prop :=
  exists i tx, In (EvAttempt i (RGasPrice (inl tx))) evs /\ TxHash tx = h.

(** The ticks of a schedule of [Send]. *)
Definition isTick (ev : event) : bool :=
  match ev with
  | EvTick => true
  | _ => false
  end.

Definition ticks (evs : list event) : nat :=
  length (filter (fun ev => isTick ev = true) evs).

(** * Properties *)

(** ** Machine integers *)

Lemma uint64_modulus_pos : 0 < uint64_modulus.
Proof. reflexivity. Qed.

Lemma wrap64_range (z : Z) : is_uint64 (wrap64 z).
Proof. unfold is_uint64, wrap64. apply Z.mod_pos_bound, uint64_modulus_pos. Qed.

Lemma wrap64_small (z : Z) : is_uint64 z -> wrap64 z = z.
Proof. unfold is_uint64, wrap64. intros H. now apply Z.mod_small. Qed.

Lemma add64_exact (x y : Z) : is_uint64 (x + y) -> add64 x y = x + y.
Proof. apply wrap64_small. Qed.

Lemma sub64_exact (x y : Z) : is_uint64 (x - y) -> sub64 x y = x - y.
Proof. apply wrap64_small. Qed.

(** A [uint64] counter never keeps its value across [++]. *)
Lemma add64_one_neq (x : Z) : is_uint64 x -> add64 x 1 <> x.
Proof.
  unfold is_uint64, add64, wrap64, uint64_modulus. intros Hx Heq.
  destruct (Z.eq_dec x (2 ^ 64 - 1)) as [-> | Hne].
  - vm_compute in Heq. discriminate.
  - rewrite Z.mod_small in Heq by lia. lia.
Qed.

(** ** Substrings *)

Lemma append_nil (b : string) : String.append EmptyString b = b.
Proof. reflexivity. Qed.

Lemma append_cons (c : ascii) (p b : string) :
  String.append (String c p) b = String c (String.append p b).
Proof. reflexivity. Qed.

Lemma HasPrefix_spec (s p : string) :
  HasPrefix s p = true <-> exists b, s = String.append p b.
Proof.
  revert s. induction p as [| c p IH]; intros s; simpl.
  - split; [intros _; now exists s | reflexivity].
  - destruct s as [| d s].
    + split; [discriminate | intros [b Hb]; rewrite append_cons in Hb; discriminate].
    + destruct (Ascii.eqb_spec c d) as [-> | Hne].
      * rewrite IH. split; intros [b Hb]; exists b; rewrite append_cons in *;
          congruence.
      * split; [discriminate |].
        intros [b Hb]. rewrite append_cons in Hb. congruence.
Qed.

(** [Contains] decides the occurrence of [substr] inside [s]. *)
Lemma Contains_spec (s substr : string) :
  Contains s substr = true <->
  exists a b, s = String.append a (String.append substr b).
Proof.
  induction s as [| d s IH]; simpl.
  - destruct (HasPrefix "" substr) eqn:Hp.
    + apply HasPrefix_spec in Hp as [b Hb].
      split; [intros _; exists EmptyString, b; exact Hb | reflexivity].
    + split; [discriminate |].
      intros [a [b Hab]]. destruct a; [| rewrite append_cons in Hab; discriminate].
      rewrite append_nil in Hab.
      assert (HasPrefix "" substr = true) by (apply HasPrefix_spec; eauto).
      congruence.
  - destruct (HasPrefix (String d s) substr) eqn:Hp.
    + apply HasPrefix_spec in Hp as [b Hb].
      split; [intros _; exists EmptyString, b; exact Hb | reflexivity].
    + rewrite IH. split.
      * intros [a [b Hab]]. exists (String d a), b.
        rewrite append_cons. now rewrite Hab.
      * intros [a [b Hab]]. destruct a as [| c a].
        -- rewrite append_nil in Hab.
           assert (HasPrefix (String d s) substr = true)
             by (apply HasPrefix_spec; eauto).
           congruence.
        -- rewrite append_cons in Hab. exists a, b. congruence.
Qed.

Example Contains_nonce_too_low :
  Contains "rpc error: nonce too low: next nonce 7" "nonce too low" = true.
Proof. reflexivity. Qed.

Example Contains_other :
  Contains "insufficient funds" "nonce too low" = false.
Proof. reflexivity. Qed.

(** ** [SendState] *)

Lemma size_zero_iff (X : gset Z) : size X = 0%nat <-> X = ∅.
Proof.
  split.
  - intros H. apply leibniz_equiv, size_empty_iff. exact H.
  - intros ->. apply size_empty.
Qed.

Lemma size_zero_empty (X : gset Z) : (size X =? 0)%nat = true <-> X = ∅.
Proof. rewrite Nat.eqb_eq. apply size_zero_iff. Qed.

Lemma size_pos_nonempty (X : gset Z) : (0 <? size X)%nat = true <-> X <> ∅.
Proof.
  rewrite Nat.ltb_lt. rewrite <- size_zero_iff. lia.
Qed.

Lemma size_pos_empty (X : gset Z) : (0 <? size X)%nat = false <-> X = ∅.
Proof.
  rewrite Nat.ltb_ge. rewrite <- size_zero_iff. lia.
Qed.

Lemma ShouldAbortImmediately_true (s : SendState) :
  ShouldAbortImmediately s = true <->
  minedTxs s = ∅ /\ safeAbortNonceTooLowCount s <= nonceTooLowCount s.
Proof.
  unfold ShouldAbortImmediately.
  destruct (0 <? size (minedTxs s))%nat eqn:Hsz.
  - apply size_pos_nonempty in Hsz. split; [discriminate | tauto].
  - apply size_pos_empty in Hsz. rewrite Z.leb_le. tauto.
Qed.

Lemma reachable_threshold (E : error) (threshold : Z) (s : SendState) :
  reachable E threshold s ->
  safeAbortNonceTooLowCount s = threshold /\ threshold <> 0.
Proof.
  induction 1 as [s Hnew | s err _ IH | s h _ IH | s h _ IH].
  - unfold NewSendState in Hnew.
    destruct (threshold =? 0) eqn:Hz; [discriminate |].
    apply Z.eqb_neq in Hz. inversion Hnew; subst; simpl. tauto.
  - unfold ProcessSendError. destruct err as [e |]; [| exact IH].
    destruct (negb _); [exact IH | exact IH].
  - exact IH.
  - unfold TxNotMined. destruct (_ && _); exact IH.
Qed.

(** The counter of a reachable state is a [uint64]. *)
Lemma reachable_counter_range (E : error) (threshold : Z) (s : SendState) :
  reachable E threshold s -> is_uint64 (nonceTooLowCount s).
Proof.
  induction 1 as [s Hnew | s err _ IH | s h _ IH | s h _ IH].
  - unfold NewSendState in Hnew.
    destruct (threshold =? 0); [discriminate |].
    inversion Hnew; subst; simpl. unfold is_uint64, uint64_modulus. lia.
  - unfold ProcessSendError. destruct err as [e |]; [| exact IH].
    destruct (negb _); [exact IH | simpl; apply wrap64_range].
  - exact IH.
  - unfold TxNotMined. destruct (_ && _); simpl; [| exact IH].
    unfold is_uint64, uint64_modulus. lia.
Qed.

(** C2. On every state that a fresh [SendState] reaches through
    [ProcessSendError], [TxMined] and [TxNotMined], the threshold is the
    one it was built with, and [ShouldAbortImmediately] answers true
    exactly when [minedTxs] is empty and [nonceTooLowCount] has reached
    the threshold; it answers false whenever [minedTxs] is not empty. *)
Theorem ShouldAbortImmediately_reachable
    (E : error) (threshold : Z) (s : SendState) :
  reachable E threshold s ->
  safeAbortNonceTooLowCount s = threshold /\
  (ShouldAbortImmediately s = true <->
   minedTxs s = ∅ /\ threshold <= nonceTooLowCount s) /\
  (minedTxs s <> ∅ -> ShouldAbortImmediately s = false).
Proof.
  intros Hr. destruct (reachable_threshold E threshold s Hr) as [Hthr _].
  split; [exact Hthr |]. split.
  - rewrite ShouldAbortImmediately_true, Hthr. reflexivity.
  - intros Hne. destruct (ShouldAbortImmediately s) eqn:Ha; [| reflexivity].
    apply ShouldAbortImmediately_true in Ha. tauto.
Qed.

(** C3. [TxNotMined h] removes [h] from [minedTxs]; the counter is set
    to zero when [h] was present and the set is empty afterwards, and
    keeps its value in every other case. *)
Theorem TxNotMined_spec (s : SendState) (h : Hash) :
  minedTxs (TxNotMined s h) = minedTxs s ∖ {[ h ]} /\
  (h ∉ minedTxs (TxNotMined s h)) /\
  safeAbortNonceTooLowCount (TxNotMined s h) = safeAbortNonceTooLowCount s /\
  ((h ∈ minedTxs s) /\ minedTxs (TxNotMined s h) = ∅ ->
   nonceTooLowCount (TxNotMined s h) = 0) /\
  (~ ((h ∈ minedTxs s) /\ minedTxs (TxNotMined s h) = ∅) ->
   nonceTooLowCount (TxNotMined s h) = nonceTooLowCount s).
Proof.
  assert (Hm : minedTxs (TxNotMined s h) = minedTxs s ∖ {[ h ]}).
  { unfold TxNotMined. destruct (_ && _); reflexivity. }
  assert (Ht : safeAbortNonceTooLowCount (TxNotMined s h)
               = safeAbortNonceTooLowCount s).
  { unfold TxNotMined. destruct (_ && _); reflexivity. }
  split; [exact Hm |].
  split; [rewrite Hm, elem_of_difference, elem_of_singleton; tauto |].
  split; [exact Ht |]. rewrite Hm.
  unfold TxNotMined.
  destruct ((size (minedTxs s ∖ {[ h ]}) =? 0)%nat
            && bool_decide (h ∈ minedTxs s)) eqn:Hc; simpl.
  - split; [reflexivity |]. intros Hn. exfalso. apply Hn.
    apply andb_true_iff in Hc as [Hsz Hin].
    apply size_zero_empty in Hsz. apply bool_decide_eq_true in Hin. tauto.
  - split; [| reflexivity]. intros [Hin Hsz]. exfalso.
    apply andb_false_iff in Hc as [Hc | Hc].
    + apply size_zero_empty in Hsz. congruence.
    + apply bool_decide_eq_false in Hc. contradiction.
Qed.

Lemma ProcessSendError_hit (E : error) (s : SendState) (err : option error) :
  nonceTooLow E err ->
  ProcessSendError E s err =
  {| minedTxs := minedTxs s;
     nonceTooLowCount := add64 (nonceTooLowCount s) 1;
     safeAbortNonceTooLowCount := safeAbortNonceTooLowCount s |}.
Proof.
  intros (e & a & b & -> & Hmsg). unfold ProcessSendError.
  assert (Hc : Contains (Error e) (Error E) = true)
    by (apply Contains_spec; eauto).
  now rewrite Hc.
Qed.

Lemma ProcessSendError_miss (E : error) (s : SendState) (err : option error) :
  ~ nonceTooLow E err -> ProcessSendError E s err = s.
Proof.
  intros Hn. unfold ProcessSendError. destruct err as [e |]; [| reflexivity].
  destruct (Contains (Error e) (Error E)) eqn:Hc; [| reflexivity].
  exfalso. apply Hn. apply Contains_spec in Hc as (a & b & Hab).
  exists e, a, b. tauto.
Qed.

Lemma nonceTooLow_dec (E : error) (err : option error) :
  nonceTooLow E err \/ ~ nonceTooLow E err.
Proof.
  destruct err as [e |].
  - destruct (Contains (Error e) (Error E)) eqn:Hc.
    + left. apply Contains_spec in Hc as (a & b & Hab). exists e, a, b. tauto.
    + right. intros (e' & a & b & Heq & Hmsg). inversion Heq; subst e'.
      assert (Contains (Error e) (Error E) = true)
        by (apply Contains_spec; eauto).
      congruence.
  - right. intros (e' & a & b & Heq & _). discriminate.
Qed.

(** C5. [ProcessSendError err] never touches [minedTxs] or the
    threshold. It increments the counter (the [++] of a [uint64]: one
    more, and exactly [+ 1] below [MaxUint64]) exactly when [err] is
    not nil and its message holds the message of the sentinel; with a
    nil error or without the substring the state is the same. *)
Theorem ProcessSendError_spec (E : error) (s : SendState) (err : option error) :
  is_uint64 (nonceTooLowCount s) ->
  minedTxs (ProcessSendError E s err) = minedTxs s /\
  safeAbortNonceTooLowCount (ProcessSendError E s err)
    = safeAbortNonceTooLowCount s /\
  (nonceTooLowCount (ProcessSendError E s err) = add64 (nonceTooLowCount s) 1
   <-> nonceTooLow E err) /\
  (nonceTooLow E err -> nonceTooLowCount s < MaxUint64 ->
   nonceTooLowCount (ProcessSendError E s err) = nonceTooLowCount s + 1) /\
  (~ nonceTooLow E err -> ProcessSendError E s err = s).
Proof.
  intros Hu. destruct (nonceTooLow_dec E err) as [Hy | Hn].
  - rewrite (ProcessSendError_hit E s err Hy); simpl.
    repeat split; try tauto.
    intros _ Hlt. apply add64_exact.
    unfold is_uint64, MaxUint64 in *. lia.
  - rewrite (ProcessSendError_miss E s err Hn).
    repeat split; try tauto.
    intros Heq. exfalso. symmetry in Heq. now apply add64_one_neq in Heq.
Qed.

(** C10. [TxMined h] puts [h] into [minedTxs] and changes nothing
    else, whatever the counter is; a second [TxMined h] changes
    nothing. *)
Theorem TxMined_idempotent (s : SendState) (h : Hash) :
  TxMined (TxMined s h) h = TxMined s h /\
  minedTxs (TxMined s h) = {[ h ]} ∪ minedTxs s /\
  nonceTooLowCount (TxMined s h) = nonceTooLowCount s /\
  safeAbortNonceTooLowCount (TxMined s h) = safeAbortNonceTooLowCount s.
Proof.
  split; [| repeat split].
  unfold TxMined; simpl. f_equal.
  now rewrite (assoc_L (∪)), (idemp_L (∪)).
Qed.

(** ** Construction *)

(** C9. [CalcGasFeeCap] is [gasTipCap + 2 * baseFee] on the
    integers. *)
Theorem CalcGasFeeCap_spec (baseFee gasTipCap : Z) :
  CalcGasFeeCap baseFee gasTipCap = gasTipCap + 2 * baseFee.
Proof. unfold CalcGasFeeCap. lia. Qed.

(** C4, as the code has it. [NewSimpleTxManager] panics exactly when
    [NumConfirmations] is zero and does not look at
    [SafeAbortNonceTooLowCount]. A zero threshold is refused by
    [NewSendState], which [Send] calls first: every [Send] on such a
    manager panics. With both counts non-zero the manager is built and
    [Send] starts. *)
Theorem construction_guards (E : error) (c : Config) :
  (NumConfirmations c = 0 ->
   NewSimpleTxManager c = Panic "txmgr: NumConfirmations must be > 0") /\
  (NumConfirmations c <> 0 ->
   NewSimpleTxManager c = Ok {| cfg := c |}) /\
  (SafeAbortNonceTooLowCount c = 0 ->
   NewSendState (SafeAbortNonceTooLowCount c)
     = Panic "txmgr: safeAbortNonceTooLowCount must be > 0" /\
   forall ctx evs,
     Send E {| cfg := c |} ctx evs
       = Panic "txmgr: safeAbortNonceTooLowCount must be > 0") /\
  (SafeAbortNonceTooLowCount c <> 0 ->
   (exists s, NewSendState (SafeAbortNonceTooLowCount c) = Ok s) /\
   forall ctx, exists d, SendStart {| cfg := c |} ctx = Ok d).
Proof.
  unfold NewSimpleTxManager, Send, SendStart, NewSendState; simpl.
  split; [intros ->; reflexivity |].
  split; [intros Hn; apply Z.eqb_neq in Hn; now rewrite Hn |].
  split.
  - intros ->. split; [reflexivity | intros ctx evs; reflexivity].
  - intros Hn. apply Z.eqb_neq in Hn. rewrite Hn. split; eauto.
Qed.

(** The manager is built with a zero threshold. *)
Lemma NewSimpleTxManager_zero_threshold :
  SafeAbortNonceTooLowCount (mkConfig 1000 100 1 0) = 0 /\
  NewSimpleTxManager (mkConfig 1000 100 1 0)
    = Ok {| cfg := mkConfig 1000 100 1 0 |}.
Proof. split; reflexivity. Qed.

(** ** [waitMined] *)

(** C8. One poll of [waitMined] with a [SendState]. With a receipt,
    [TxMined] is reported before the tip is asked for, and stays
    reported whatever the tip fetch answers, an error included; with
    no receipt and an error the [SendState] is untouched; with neither,
    [TxNotMined] is reported. *)
Theorem waitMined_poll_classification
    (n : Z) (h : Hash) (ctx : option error) (s : SendState) (log : list LogLine) :
  (forall r err,
     wrun n h [(ctx, RReceipt (Some r) err); (ctx, RStep)] WQuery (Some s) log
       = Some (WTip r, Some (TxMined s h), log)) /\
  (forall r err tipHeight tipErr,
     exists pc out,
       wrun n h [(ctx, RReceipt (Some r) err); (ctx, RStep);
                 (ctx, RBlockNumber tipHeight tipErr)] WQuery (Some s) log
         = Some (pc, Some (TxMined s h), out) /\
       (forall e, tipErr = Some e -> pc = WSelect)) /\
  (forall e,
     wrun n h [(ctx, RReceipt None (Some e)); (ctx, RStep)] WQuery (Some s) log
       = Some (WSelect, Some s, log ++ [LogReceiptRetrieveFailed h e])) /\
  wrun n h [(ctx, RReceipt None None); (ctx, RStep)] WQuery (Some s) log
    = Some (WSelect, Some (TxNotMined s h), log ++ [LogNotYetMined h]).
Proof.
  split; [| split; [| split]].
  - intros r err. simpl. now rewrite !app_nil_r.
  - intros r err tipHeight tipErr. simpl.
    destruct tipErr as [e |].
    + eexists _, _. split; [reflexivity | reflexivity].
    + destruct (confirmed n (Uint64 (BlockNumber r)) tipHeight);
        eexists _, _; (split; [reflexivity | discriminate]).
  - intros e. simpl. now rewrite app_nil_r.
  - simpl. now rewrite app_nil_r.
Qed.

Lemma confirmed_exact (n txHeight tipHeight : Z) :
  is_uint64 (txHeight + n) -> is_uint64 (tipHeight + 1) ->
  confirmed n txHeight tipHeight = true <-> txHeight + n <= tipHeight + 1.
Proof.
  intros H1 H2. unfold confirmed.
  rewrite !add64_exact by assumption. apply Z.leb_le.
Qed.

Lemma confsRemaining_exact (n txHeight tipHeight : Z) :
  is_uint64 (txHeight + n) -> is_uint64 (tipHeight + 1) ->
  tipHeight + 1 <= txHeight + n ->
  confsRemaining n txHeight tipHeight = txHeight + n - (tipHeight + 1).
Proof.
  intros H1 H2 Hle. unfold confsRemaining.
  rewrite !add64_exact by assumption. apply sub64_exact.
  unfold is_uint64 in *. lia.
Qed.

(** C1, as the code has it. When neither [txHeight + numConfirmations]
    nor [tipHeight + 1] leaves the range of a [uint64], [waitMined]
    returns the receipt exactly when
    [txHeight + numConfirmations <= tipHeight + 1]; otherwise it logs
    the exact difference as [confsRemaining], goes to the [select]
    without returning, and asks for the receipt again on the next
    tick. *)
Theorem waitMined_confirmation_rule
    (n : Z) (h : Hash) (ctx : option error) (r : Receipt) (tipHeight : Z)
    (s : option SendState) :
  is_uint64 n -> is_uint64 tipHeight ->
  Uint64 (BlockNumber r) + n < uint64_modulus ->
  tipHeight + 1 < uint64_modulus ->
  exists pc out,
    wstep n h ctx (WTip r) (RBlockNumber tipHeight None) s = Some (pc, s, out) /\
    (pc = WReturn (Some r) None <->
     Uint64 (BlockNumber r) + n <= tipHeight + 1) /\
    (~ Uint64 (BlockNumber r) + n <= tipHeight + 1 ->
     pc = WSelect /\
     out = [LogMinedCheckingConfirmations h (Uint64 (BlockNumber r)) tipHeight n;
            LogNotYetConfirmed h
              (Uint64 (BlockNumber r) + n - (tipHeight + 1))] /\
     wstep n h ctx WSelect RSelectTick s = Some (WQuery, s, [])).
Proof.
  intros Hn Ht Hsum Htip.
  pose proof (wrap64_range (Z.abs (BlockNumber r))) as Hh.
  fold (Uint64 (BlockNumber r)) in Hh.
  set (txHeight := Uint64 (BlockNumber r)) in *.
  assert (H1 : is_uint64 (txHeight + n)) by (unfold is_uint64 in *; lia).
  assert (H2 : is_uint64 (tipHeight + 1)) by (unfold is_uint64 in *; lia).
  pose proof (confirmed_exact n txHeight tipHeight H1 H2) as Hc.
  unfold wstep. fold txHeight.
  destruct (confirmed n txHeight tipHeight) eqn:Hcf.
  - eexists _, _. split; [reflexivity |].
    split; [tauto |]. intros Hno. exfalso. apply Hno, Hc. reflexivity.
  - eexists _, _. split; [reflexivity |].
    assert (Hno : ~ txHeight + n <= tipHeight + 1).
    { intros Hle. apply Hc in Hle. discriminate. }
    split; [split; [discriminate | contradiction] |].
    intros _. split; [reflexivity |]. split; [| reflexivity].
    rewrite confsRemaining_exact by (assumption || lia). reflexivity.
Qed.

(** With [numConfirmations = MaxUint64], a receipt of block 1 is
    accepted at tip 1: the sum wraps to zero. *)
Lemma waitMined_accepts_on_overflow :
  1 <= MaxUint64 /\
  ~ (Uint64 (BlockNumber (mkReceipt 7 1)) + MaxUint64 <= 1 + 1) /\
  wstep MaxUint64 7 None (WTip (mkReceipt 7 1)) (RBlockNumber 1 None) None
    = Some (WReturn (Some (mkReceipt 7 1)) None, None,
            [LogMinedCheckingConfirmations 7 1 1 MaxUint64;
             LogTransactionConfirmed 7]).
Proof.
  split; [vm_compute; discriminate |].
  split; [vm_compute; intros H; apply H; reflexivity |].
  vm_compute. reflexivity.
Qed.

(** ** [Send] *)

Section DriverFacts.

Variable E : error.
Variable m : SimpleTxManager.

Lemma run_app (d : Driver) (evs1 evs2 : list event) :
  run E m d (evs1 ++ evs2) =
  match run E m d evs1 with
  | Some d' => run E m d' evs2
  | None => None
  end.
Proof.
  revert d. induction evs1 as [| ev evs1 IH]; intros d; simpl.
  - reflexivity.
  - destruct (step E m d ev) as [d' |]; [apply IH | reflexivity].
Qed.

Lemma run_snoc (d0 d d' : Driver) (past : list event) (ev : event) :
  run E m d0 past = Some d -> step E m d ev = Some d' ->
  run E m d0 (past ++ [ev]) = Some d'.
Proof.
  intros Hrun Hstep. rewrite run_app, Hrun. simpl. now rewrite Hstep.
Qed.

(** A [Send] that returned went past both [NewSendState] and
    [time.NewTicker], and its schedule was run to a state in which the
    main goroutine has returned. *)
Lemma Send_Ok_inv (ctx : option error) (evs : list event)
    (res : option Receipt * option error) :
  Send E m ctx evs = Ok (Some res) ->
  exists d0 d,
    SendStart m ctx = Ok d0 /\ 0 < ResubmissionTimeout (cfg m) /\
    run E m d0 evs = Some d /\ crashed (attempts d) = None /\
    returned d = Some res.
Proof.
  unfold Send, NewTicker. intros H.
  destruct (SendStart m ctx) as [d0 | msg] eqn:Hstart; [| discriminate].
  destruct (ResubmissionTimeout (cfg m) <=? 0) eqn:Ht; [discriminate |].
  apply Z.leb_gt in Ht.
  destruct (run E m d0 evs) as [d |] eqn:Hrun; [| discriminate].
  destruct (crashed (attempts d)) as [msg |] eqn:Hcr; [discriminate |].
  assert (Hret : returned d = Some res) by congruence.
  exists d0, d.
  split; [reflexivity |]. split; [lia |]. split; [exact Hrun |].
  split; [exact Hcr | exact Hret].
Qed.

(** [waitMined] returns a receipt only from the tip fetch, without
    an error, and when the confirmation test passes. *)
Lemma wstep_returns_receipt (n : Z) (h : Hash) (cx : option error)
    (w : wpc) (resp : envResp) (s s' : option SendState)
    (r : Receipt) (e : option error) (out : list LogLine) :
  wstep n h cx w resp s = Some (WReturn (Some r) e, s', out) ->
  e = None /\
  exists tipHeight,
    w = WTip r /\ resp = RBlockNumber tipHeight None /\
    confirmed n (Uint64 (BlockNumber r)) tipHeight = true.
Proof.
  unfold wstep. intros H.
  destruct w as [| [rc |] [er |] | rc | | rc er]; destruct resp as [| | | | t te | |];
    try discriminate.
  - destruct te as [e' |]; [discriminate |].
    destruct (confirmed n (Uint64 (BlockNumber rc)) t) eqn:Hc; [| discriminate].
    inversion H; subst. split; [reflexivity |]. now exists t.
  - destruct cx; discriminate.
Qed.

(** [waitMined] inside [Send] always has a [SendState]. *)
Lemma wstep_keeps_state (n : Z) (h : Hash) (cx : option error)
    (w w' : wpc) (resp : envResp) (s : SendState) (s' : option SendState)
    (out : list LogLine) :
  wstep n h cx w resp (Some s) = Some (w', s', out) -> exists s1, s' = Some s1.
Proof.
  unfold wstep. intros H.
  destruct w as [| [rc |] [er |] | rc | | rc er]; destruct resp as [| | | | t te | |];
    try discriminate; simpl in H.
  all: try (inversion H; subst; eauto; fail).
  - destruct te; [| destruct (confirmed _ _ _)]; inversion H; subst; eauto.
  - destruct cx; inversion H; subst; eauto.
Qed.

Section Invariant.

Variable d0 : Driver.

Lemma acceptedBy_snoc (past : list event) (ev : event) (r : Receipt) :
  acceptedBy E m d0 past r -> acceptedBy E m d0 (past ++ [ev]) r.
Proof.
  intros (p1 & p2 & d1 & i & tx & tip & -> & Hrun & Hat & Hc).
  exists p1, (p2 ++ [ev]), d1, i, tx, tip.
  repeat split; try assumption.
  now rewrite <- app_assoc.
Qed.

Lemma ctxErrOK_snoc (past : list event) (ev : event) (e : error) :
  ctxErrOK d0 past e -> ctxErrOK d0 (past ++ [ev]) e.
Proof.
  unfold ctxErrOK. intros [H | [H | H]]; auto.
  right; right. apply in_or_app. now left.
Qed.

Lemma goodResult_snoc (past : list event) (ev : event)
    (res : option Receipt * option error) :
  goodResult E m d0 past res -> goodResult E m d0 (past ++ [ev]) res.
Proof.
  intros [(r & -> & H) | (e & -> & H)].
  - left. exists r. split; [reflexivity | now apply acceptedBy_snoc].
  - right. exists e. split; [reflexivity | now apply ctxErrOK_snoc].
Qed.

Lemma ctxErrOK_cancel (past : list event) (cx : option error) (e : error) :
  (forall e', cx = Some e' -> ctxErrOK d0 past e') ->
  cancel cx = Some e -> ctxErrOK d0 past e.
Proof.
  intros H Hc. destruct cx as [e' |]; simpl in Hc.
  - apply H. exact Hc.
  - inversion Hc. now left.
Qed.

(** An attempt that moves keeps the invariant when what it leaves
    in its place, in the channel and in the context is accounted
    for. *)
Lemma Inv_moved (past : list event) (d : Driver) (ev : event) (i : nat)
    (pc' : apc) (s : SendState) (cx : option error) (ch : option Receipt)
    (out : list LogLine) :
  Inv E m d0 past d ->
  step E m d ev = Some (moved d i pc' s cx ch out) ->
  (forall r, holdsReceipt pc' = Some r -> acceptedBy E m d0 (past ++ [ev]) r) ->
  (forall r, ch = Some r -> acceptedBy E m d0 (past ++ [ev]) r) ->
  (forall e, cx = Some e -> ctxErrOK d0 (past ++ [ev]) e) ->
  Inv E m d0 (past ++ [ev]) (moved d i pc' s cx ch out).
Proof.
  intros (Hrun & Hch & Hat & Hcx & Hpar & Hmain) Hstep Hpc' Hch' Hcx'.
  unfold Inv; simpl.
  split; [eapply run_snoc; eassumption |].
  split; [exact Hch' |].
  split.
  { apply Forall_insert; [| exact Hpc'].
    eapply Forall_impl; [exact Hat |].
    intros pc Hpc r Hr. apply acceptedBy_snoc. now apply Hpc. }
  split; [exact Hcx' |].
  split.
  { intros e He. destruct (Hpar e He) as [H | H]; [now left |].
    right. apply in_or_app. now left. }
  intros res Hres. apply goodResult_snoc. now apply Hmain.
Qed.

Lemma Inv_goes (past : list event) (d : Driver) (ev : event) (i : nat)
    (pc' : apc) (out : list LogLine) :
  Inv E m d0 past d ->
  step E m d ev = Some (goes d i pc' out) ->
  (forall r, holdsReceipt pc' = Some r -> acceptedBy E m d0 (past ++ [ev]) r) ->
  Inv E m d0 (past ++ [ev]) (goes d i pc' out).
Proof.
  intros HI Hstep Hpc'. unfold goes in *.
  apply Inv_moved; try assumption.
  - intros r Hr. apply acceptedBy_snoc.
    destruct HI as (_ & Hch & _). now apply Hch.
  - intros e He. apply ctxErrOK_snoc.
    destruct HI as (_ & _ & _ & Hcx & _). now apply Hcx.
Qed.

End Invariant.

End DriverFacts.

Section DriverInvariant.

Variable E : error.
Variable m : SimpleTxManager.
Variable d0 : Driver.

Local Ltac no_receipt := intros ? Hhold; simpl in Hhold; discriminate.

Lemma Inv_astep (past : list event) (d d' : Driver) (i : nat) (pc : apc)
    (resp : envResp) :
  Inv E m d0 past d ->
  attempts d !! i = Some pc ->
  astep E m d i pc resp = Some d' ->
  Inv E m d0 (past ++ [EvAttempt i resp]) d'.
Proof.
  intros HI Hlk Hast.
  assert (Hstep : step E m d (EvAttempt i resp) = Some d')
    by (simpl; now rewrite Hlk).
  assert (Hheld : forall r, holdsReceipt pc = Some r ->
                            acceptedBy E m d0 past r).
  { destruct HI as (_ & _ & Hat & _).
    rewrite Forall_lookup in Hat. intros r Hr. eapply Hat; eassumption. }
  destruct pc as [| tx | tx err | tx err | | tx w | tx r | | msg]; simpl in Hast.
  - (* AUpdateGasPrice *)
    destruct resp as [| [tx | err] | | | | |]; try discriminate.
    + inversion Hast; subst d'. apply Inv_goes; [assumption .. | no_receipt].
    + destruct (isCancelErr err); inversion Hast; subst d';
        (apply Inv_goes; [assumption .. | no_receipt]).
  - (* ASendTx *)
    destruct resp; try discriminate.
    inversion Hast; subst d'. apply Inv_goes; [assumption .. | no_receipt].
  - (* AProcessSendError *)
    destruct resp; try discriminate.
    inversion Hast; subst d'. apply Inv_moved; try assumption.
    + no_receipt.
    + intros r Hr. apply acceptedBy_snoc.
      destruct HI as (_ & Hch & _). now apply Hch.
    + intros e He. apply ctxErrOK_snoc.
      destruct HI as (_ & _ & _ & Hcx & _). now apply Hcx.
  - (* ACheckSendError *)
    destruct resp; try (destruct err; discriminate).
    destruct err as [err |].
    + destruct (isCancelErr err);
        [| destruct (ShouldAbortImmediately (sendState d))];
        inversion Hast; subst d';
        (apply Inv_goes; [assumption .. | no_receipt]).
    + destruct (NewTicker (ReceiptQueryInterval (cfg m)));
        inversion Hast; subst d';
        (apply Inv_goes; [assumption .. | no_receipt]).
  - (* ACancel *)
    destruct resp; try discriminate.
    inversion Hast; subst d'. apply Inv_moved; try assumption.
    + no_receipt.
    + intros r Hr. apply acceptedBy_snoc.
      destruct HI as (_ & Hch & _). now apply Hch.
    + intros e He. apply ctxErrOK_snoc.
      destruct HI as (_ & _ & _ & Hcx & _).
      eapply ctxErrOK_cancel; eassumption.
  - (* AWait *)
    assert (Hw : forall w' s' out,
               wstep (NumConfirmations (cfg m)) (TxHash tx) (ctxc d) w resp
                 (Some (sendState d)) = Some (w', Some s', out) ->
               Inv E m d0 (past ++ [EvAttempt i resp])
                 (moved d i (AWait tx w') s' (ctxc d) (receiptChan d) out)).
    { intros w' s' out Hws. apply Inv_moved; try assumption.
      - simpl in Hstep. rewrite Hlk in Hstep. simpl in Hstep.
        simpl. rewrite Hlk. simpl.
        destruct w; try (now rewrite Hws);
          destruct resp; try (now rewrite Hws); discriminate.
      - intros r Hr. simpl in Hr.
        destruct w' as [| | | | [rc |] er]; try discriminate.
        inversion Hr; subst rc.
        apply wstep_returns_receipt in Hws as (_ & tip & -> & -> & Hc).
        exists past, [], d, i, tx, tip.
        destruct HI as (Hrun & _). repeat split; assumption.
      - intros r Hr. apply acceptedBy_snoc.
        destruct HI as (_ & Hch & _). now apply Hch.
      - intros e He. apply ctxErrOK_snoc.
        destruct HI as (_ & _ & _ & Hcx & _). now apply Hcx. }
    destruct w as [| rc er | rc | | rc er].
    1-4: destruct (wstep _ _ _ _ _ _) as [[[w' [s' |]] out] |] eqn:Hws;
      try discriminate; inversion Hast; subst d'; now apply Hw.
    destruct resp.
    2-7: destruct (wstep _ _ _ _ _ _) as [[[w' [s' |]] out] |] eqn:Hws;
      try discriminate; inversion Hast; subst d'; now apply Hw.
    destruct rc as [rc |]; inversion Hast; subst d'.
    + apply Inv_goes; try assumption.
      intros r Hr. simpl in Hr. inversion Hr; subst r.
      apply acceptedBy_snoc. now apply Hheld.
    + apply Inv_goes; [assumption .. | no_receipt].
  - (* ADeliver *)
    destruct resp; try discriminate.
    destruct (receiptChan d) as [r0 |] eqn:Hchan; inversion Hast; subst d'.
    + apply Inv_goes; [assumption .. | no_receipt].
    + apply Inv_moved; try assumption.
      * no_receipt.
      * intros r1 Hr1. inversion Hr1; subst r1.
        apply acceptedBy_snoc. now apply Hheld.
      * intros e He. apply ctxErrOK_snoc.
        destruct HI as (_ & _ & _ & Hcx & _). now apply Hcx.
  - (* ADone *)
    destruct resp; discriminate.
  - (* APanic *)
    destruct resp; discriminate.
Qed.

End DriverInvariant.

Section SendFacts.

Variable E : error.
Variable m : SimpleTxManager.

Lemma Inv_step (d0 : Driver) (past : list event) (d d' : Driver) (ev : event) :
  Inv E m d0 past d -> step E m d ev = Some d' ->
  Inv E m d0 (past ++ [ev]) d'.
Proof.
  intros HI Hstep.
  pose proof HI as (Hrun & Hch & Hat & Hcx & Hpar & Hmain).
  assert (Hrun' : run E m d0 (past ++ [ev]) = Some d')
    by (eapply run_snoc; eassumption).
  assert (Hat' : Forall (fun pc => forall r, holdsReceipt pc = Some r ->
                           acceptedBy E m d0 (past ++ [ev]) r) (attempts d))
    by (eapply Forall_impl; [exact Hat |];
        intros pc Hpc r Hr; apply acceptedBy_snoc; now apply Hpc).
  assert (Hch' : forall r, receiptChan d = Some r ->
                           acceptedBy E m d0 (past ++ [ev]) r)
    by (intros r Hr; apply acceptedBy_snoc; now apply Hch).
  assert (Hcx' : forall e, ctxc d = Some e -> ctxErrOK d0 (past ++ [ev]) e)
    by (intros e He; apply ctxErrOK_snoc; now apply Hcx).
  assert (Hpar' : forall e, parent d = Some e ->
                            parent d0 = Some e \/ In (EvParent e) (past ++ [ev]))
    by (intros e He; destruct (Hpar e He) as [H | H]; [now left |];
        right; apply in_or_app; now left).
  assert (Hmain' : forall res, mainResult (main d) = Some res ->
                               goodResult E m d0 (past ++ [ev]) res)
    by (intros res Hres; apply goodResult_snoc; now apply Hmain).
  destruct ev as [| | | | err | i resp].
  6: { simpl in Hstep. destruct (attempts d !! i) as [pc |] eqn:Hlk;
         [| discriminate]. eapply Inv_astep; eassumption. }
  all: simpl in Hstep.
  - (* EvTick *)
    destruct (main d) eqn:Hm; try discriminate.
    destruct (IsWaitingForConfirmation (sendState d));
      inversion Hstep; subst d'; unfold Inv; simpl.
    + rewrite Hm. repeat split; try assumption;
        try (intros res Hres; discriminate).
    + repeat split; try assumption.
      apply Forall_app. split; [assumption |].
      constructor; [| constructor]. intros r Hr; discriminate.
  - (* EvCtxDone *)
    destruct (main d) eqn:Hm; try discriminate.
    destruct (ctxc d) as [e |] eqn:He; [| discriminate].
    inversion Hstep; subst d'; unfold Inv; simpl.
    repeat split; try assumption.
    intros res Hres. inversion Hres; subst res.
    right. exists e. split; [reflexivity | now apply Hcx'].
  - (* EvReceipt *)
    destruct (main d) eqn:Hm; try discriminate.
    destruct (receiptChan d) as [r |] eqn:Hr; [| discriminate].
    inversion Hstep; subst d'; unfold Inv; simpl.
    repeat split; try assumption.
    + intros r' Hr'; discriminate.
    + intros res Hres. inversion Hres; subst res.
      left. exists r. split; [reflexivity | now apply Hch'].
  - (* EvDefer *)
    destruct (main d) as [| res | res | res] eqn:Hm; try discriminate.
    + inversion Hstep; subst d'; unfold Inv; simpl.
      repeat split; try assumption.
      intros e He. eapply ctxErrOK_cancel; eassumption.
    + destruct (allDone (attempts d)); [| discriminate].
      inversion Hstep; subst d'; unfold Inv; simpl.
      repeat split; assumption.
  - (* EvParent *)
    destruct (parent d) as [e0 |] eqn:Hp; [discriminate |].
    inversion Hstep; subst d'; unfold Inv; simpl.
    repeat split; try assumption.
    + intros e He. destruct (ctxc d) as [e1 |] eqn:Hc.
      * inversion He; subst e1. now apply Hcx'.
      * inversion He; subst e. right; right.
        apply in_or_app. right. now left.
    + intros e He. inversion He; subst e. right.
      apply in_or_app. right. now left.
Qed.

Lemma Inv_start (ctx : option error) (d0 : Driver) :
  SendStart m ctx = Ok d0 -> Inv E m d0 [] d0.
Proof.
  unfold SendStart. intros H.
  destruct (NewSendState (SafeAbortNonceTooLowCount (cfg m))) as [s | msg];
    [| discriminate].
  inversion H; subst d0. unfold Inv, ctxErrOK; simpl.
  repeat split.
  - intros r Hr; discriminate.
  - constructor; [| constructor]. intros r Hr; discriminate.
  - intros e He. right; left. exact He.
  - intros e He. now left.
  - intros res Hres; discriminate.
Qed.

Lemma Inv_run (d0 : Driver) (evs past : list event) (d d' : Driver) :
  Inv E m d0 past d -> run E m d evs = Some d' ->
  Inv E m d0 (past ++ evs) d'.
Proof.
  revert past d. induction evs as [| ev evs IH]; intros past d HI Hrun.
  - simpl in Hrun. inversion Hrun; subst d'. now rewrite app_nil_r.
  - simpl in Hrun. destruct (step E m d ev) as [d1 |] eqn:Hstep;
      [| discriminate].
    replace (past ++ ev :: evs) with ((past ++ [ev]) ++ evs)
      by (now rewrite <- app_assoc).
    eapply IH; [| exact Hrun]. eapply Inv_step; eassumption.
Qed.

(** C6, as the code has it. A call of [Send] that returns, returns
    either a receipt with a nil error, or a nil receipt with the error
    of the derived context: [context.Canceled], or the error the
    caller's context ended with. The receipt is one that the
    [waitMined] of an attempt had in hand when the backend answered a
    tip that passes the test of line 181 on the wrapped 64-bit sums;
    when neither sum leaves the range of a [uint64], that is
    [txHeight + NumConfirmations <= tipHeight + 1]: the receipt is
    confirmed. *)
Theorem Send_returns_confirmed (ctx : option error) (evs : list event)
    (res : option Receipt * option error) :
  Send E m ctx evs = Ok (Some res) ->
  exists d0,
    SendStart m ctx = Ok d0 /\
    ((exists r p1 p2 d1 i tx tipHeight,
        res = (Some r, None) /\
        evs = p1 ++ EvAttempt i (RBlockNumber tipHeight None) :: p2 /\
        run E m d0 p1 = Some d1 /\
        attempts d1 !! i = Some (AWait tx (WTip r)) /\
        (Uint64 (BlockNumber r) + NumConfirmations (cfg m)) mod 2 ^ 64
          <= (tipHeight + 1) mod 2 ^ 64 /\
        (is_uint64 (NumConfirmations (cfg m)) -> is_uint64 tipHeight ->
         Uint64 (BlockNumber r) + NumConfirmations (cfg m) < 2 ^ 64 ->
         tipHeight + 1 < 2 ^ 64 ->
         Uint64 (BlockNumber r) + NumConfirmations (cfg m) <= tipHeight + 1)) \/
     (exists e, res = (None, Some e) /\
                (e = Canceled \/ ctx = Some e \/ In (EvParent e) evs))).
Proof.
  intros H.
  destruct (Send_Ok_inv E m ctx evs res H)
    as (d0 & d & Hstart & _ & Hrun & _ & Hret).
  exists d0. split; [exact Hstart |].
  pose proof (Inv_run d0 evs [] d0 d (Inv_start ctx d0 Hstart) Hrun)
    as (_ & _ & _ & _ & _ & Hmain).
  simpl in Hmain.
  assert (Hp0 : parent d0 = ctx).
  { unfold SendStart in Hstart.
    destruct (NewSendState _); [| discriminate].
    inversion Hstart; reflexivity. }
  unfold returned in Hret. destruct (main d) as [| r0 | r0 | r0] eqn:Hm;
    try discriminate.
  inversion Hret; subst r0.
  specialize (Hmain res eq_refl).
  destruct Hmain as [(r & -> & Hacc) | (e & -> & He)].
  - left. destruct Hacc as (p1 & p2 & d1 & i & tx & tip & Hevs & Hrun1 & Hat & Hc).
    exists r, p1, p2, d1, i, tx, tip.
    split; [reflexivity |]. split; [exact Hevs |]. split; [exact Hrun1 |].
    split; [exact Hat |].
    unfold confirmed, add64, wrap64, uint64_modulus in Hc.
    apply Z.leb_le in Hc. split; [exact Hc |].
    intros Hn Ht Hsum Htip.
    pose proof (wrap64_range (Z.abs (BlockNumber r))) as Hh.
    fold (Uint64 (BlockNumber r)) in Hh.
    unfold is_uint64, uint64_modulus in *.
    rewrite !Z.mod_small in Hc by lia. exact Hc.
  - right. exists e. split; [reflexivity |].
    unfold ctxErrOK in He. now rewrite Hp0 in He.
Qed.

(** C7. On a tick of the main loop, [Send] spawns no attempt when
    [IsWaitingForConfirmation] answers true, that is when [minedTxs]
    is not empty, and nothing else changes; it spawns one attempt
    when the answer is false. A tick that adds an attempt is
    therefore one at which the answer was false. *)
Theorem tick_spawns_only_when_idle (d d' : Driver) :
  step E m d EvTick = Some d' ->
  (IsWaitingForConfirmation (sendState d) = true <-> minedTxs (sendState d) <> ∅) /\
  (IsWaitingForConfirmation (sendState d) = true -> d' = d) /\
  (IsWaitingForConfirmation (sendState d) = false ->
   attempts d' = attempts d ++ [AUpdateGasPrice]) /\
  (attempts d' <> attempts d ->
   IsWaitingForConfirmation (sendState d) = false).
Proof.
  intros Hstep. simpl in Hstep.
  split; [apply size_pos_nonempty |].
  destruct (main d); try discriminate.
  destruct (IsWaitingForConfirmation (sendState d));
    inversion Hstep; subst d'; simpl.
  - repeat split; [discriminate | congruence].
  - repeat split; discriminate.
Qed.

(** No other step of [Send] spawns an attempt. *)
Lemma spawn_only_on_tick (d d' : Driver) (ev : event) :
  step E m d ev = Some d' -> ev <> EvTick ->
  length (attempts d') = length (attempts d).
Proof.
  intros Hstep Hne. destruct ev as [| | | | err | i resp];
    [congruence | | | | |]; simpl in Hstep.
  - destruct (main d), (ctxc d); inversion Hstep; reflexivity.
  - destruct (main d), (receiptChan d); inversion Hstep; reflexivity.
  - destruct (main d); try discriminate.
    + inversion Hstep; reflexivity.
    + destruct (allDone (attempts d)); inversion Hstep; reflexivity.
  - destruct (parent d); inversion Hstep; reflexivity.
  - destruct (attempts d !! i) as [pc |]; [| discriminate].
    assert (Hm : forall pc' s cx ch out,
               length (attempts (moved d i pc' s cx ch out))
               = length (attempts d))
      by (intros; simpl; apply length_insert).
    unfold astep, goes in Hstep.
    repeat match type of Hstep with
           | context [match ?x with _ => _ end] => destruct x eqn:?
           | context [if ?x then _ else _] => destruct x eqn:?
           end;
      try discriminate; inversion Hstep; apply Hm.
Qed.

End SendFacts.

(** ** The scenarios of the specification *)

Example scenario_first_try :
  Send gethErrNonceTooLow mgr6 None scheduleFirstTry
    = Ok (Some (Some receipt1, None)).
Proof. vm_compute. reflexivity. Qed.

Example scenario_nonce_abort :
  Send gethErrNonceTooLow mgr6 None scheduleNonceAbort
    = Ok (Some (None, Some Canceled)).
Proof. vm_compute. reflexivity. Qed.

Example scenario_gas_price_fails :
  Send gethErrNonceTooLow mgr6 None scheduleGasPriceFails
    = Ok (Some (None, Some Canceled)).
Proof. vm_compute. reflexivity. Qed.

Example scenario_deadline :
  Send gethErrNonceTooLow mgr6 None scheduleDeadline
    = Ok (Some (None, Some DeadlineExceeded)).
Proof. vm_compute. reflexivity. Qed.

Example scenario_ripening_tick :
  step gethErrNonceTooLow mgr6 ripening EvTick = Some ripening.
Proof. vm_compute. reflexivity. Qed.

(** Scenario 4: refusals do not abort while a variant is mined, and
    the reorg of the only mined variant clears the streak. *)
Example scenario_reorg_resets :
  let s := ProcessSendError gethErrNonceTooLow
             (ProcessSendError gethErrNonceTooLow
                (ProcessSendError gethErrNonceTooLow (TxMined fresh3 7)
                   (Some rpcNonceTooLow))
                (Some rpcNonceTooLow))
             (Some rpcNonceTooLow) in
  nonceTooLowCount s = 3 /\
  ShouldAbortImmediately s = false /\
  nonceTooLowCount (TxNotMined s 7) = 0 /\
  ShouldAbortImmediately (TxNotMined s 7) = false.
Proof. vm_compute. repeat split. Qed.

(** ** Instances *)

Lemma ShouldAbortImmediately_reachable_witness :
  reachable gethErrNonceTooLow 3 refusedThrice /\
  (safeAbortNonceTooLowCount refusedThrice = 3 /\
   (ShouldAbortImmediately refusedThrice = true <->
    minedTxs refusedThrice = ∅ /\ 3 <= nonceTooLowCount refusedThrice) /\
   (minedTxs refusedThrice <> ∅ ->
    ShouldAbortImmediately refusedThrice = false)).
Proof.
  assert (H : reachable gethErrNonceTooLow 3 refusedThrice).
  { unfold refusedThrice.
    do 3 apply reachable_ProcessSendError.
    apply reachable_new. reflexivity. }
  split; [exact H |].
  exact (ShouldAbortImmediately_reachable gethErrNonceTooLow 3 refusedThrice H).
Defined.

Lemma ProcessSendError_spec_witness :
  is_uint64 (nonceTooLowCount fresh3) /\
  (minedTxs (ProcessSendError gethErrNonceTooLow fresh3 (Some rpcNonceTooLow))
     = minedTxs fresh3 /\
   safeAbortNonceTooLowCount
     (ProcessSendError gethErrNonceTooLow fresh3 (Some rpcNonceTooLow))
     = safeAbortNonceTooLowCount fresh3 /\
   (nonceTooLowCount
      (ProcessSendError gethErrNonceTooLow fresh3 (Some rpcNonceTooLow))
      = add64 (nonceTooLowCount fresh3) 1
    <-> nonceTooLow gethErrNonceTooLow (Some rpcNonceTooLow)) /\
   (nonceTooLow gethErrNonceTooLow (Some rpcNonceTooLow) ->
    nonceTooLowCount fresh3 < MaxUint64 ->
    nonceTooLowCount
      (ProcessSendError gethErrNonceTooLow fresh3 (Some rpcNonceTooLow))
      = nonceTooLowCount fresh3 + 1) /\
   (~ nonceTooLow gethErrNonceTooLow (Some rpcNonceTooLow) ->
    ProcessSendError gethErrNonceTooLow fresh3 (Some rpcNonceTooLow) = fresh3)).
Proof.
  assert (H : is_uint64 (nonceTooLowCount fresh3)).
  { unfold is_uint64, uint64_modulus. simpl. lia. }
  split; [exact H |].
  exact (ProcessSendError_spec gethErrNonceTooLow fresh3 (Some rpcNonceTooLow) H).
Defined.

Lemma waitMined_confirmation_rule_witness :
  (is_uint64 6 /\ is_uint64 105 /\
   Uint64 (BlockNumber receipt1) + 6 < uint64_modulus /\
   105 + 1 < uint64_modulus) /\
  exists pc out,
    wstep 6 7 None (WTip receipt1) (RBlockNumber 105 None) None
      = Some (pc, None, out) /\
    (pc = WReturn (Some receipt1) None <->
     Uint64 (BlockNumber receipt1) + 6 <= 105 + 1) /\
    (~ Uint64 (BlockNumber receipt1) + 6 <= 105 + 1 ->
     pc = WSelect /\
     out = [LogMinedCheckingConfirmations 7 (Uint64 (BlockNumber receipt1)) 105 6;
            LogNotYetConfirmed 7
              (Uint64 (BlockNumber receipt1) + 6 - (105 + 1))] /\
     wstep 6 7 None WSelect RSelectTick None = Some (WQuery, None, [])).
Proof.
  assert (H1 : is_uint64 6) by (unfold is_uint64, uint64_modulus; lia).
  assert (H2 : is_uint64 105) by (unfold is_uint64, uint64_modulus; lia).
  assert (H3 : Uint64 (BlockNumber receipt1) + 6 < uint64_modulus)
    by (vm_compute; reflexivity).
  assert (H4 : 105 + 1 < uint64_modulus) by (vm_compute; reflexivity).
  split; [tauto |].
  exact (waitMined_confirmation_rule 6 7 None receipt1 105 None H1 H2 H3 H4).
Defined.

Lemma Send_returns_confirmed_witness :
  Send gethErrNonceTooLow mgr6 None scheduleFirstTry
    = Ok (Some (Some receipt1, None)) /\
  exists d0,
    SendStart mgr6 None = Ok d0 /\
    ((exists r p1 p2 d1 i tx tipHeight,
        (Some receipt1, @None error) = (Some r, None) /\
        scheduleFirstTry
          = p1 ++ EvAttempt i (RBlockNumber tipHeight None) :: p2 /\
        run gethErrNonceTooLow mgr6 d0 p1 = Some d1 /\
        attempts d1 !! i = Some (AWait tx (WTip r)) /\
        (Uint64 (BlockNumber r) + NumConfirmations (cfg mgr6)) mod 2 ^ 64
          <= (tipHeight + 1) mod 2 ^ 64 /\
        (is_uint64 (NumConfirmations (cfg mgr6)) -> is_uint64 tipHeight ->
         Uint64 (BlockNumber r) + NumConfirmations (cfg mgr6) < 2 ^ 64 ->
         tipHeight + 1 < 2 ^ 64 ->
         Uint64 (BlockNumber r) + NumConfirmations (cfg mgr6)
           <= tipHeight + 1)) \/
     (exists e, (Some receipt1, @None error) = (None, Some e) /\
                (e = Canceled \/ @None error = Some e \/
                 In (EvParent e) scheduleFirstTry))).
Proof.
  assert (H : Send gethErrNonceTooLow mgr6 None scheduleFirstTry
              = Ok (Some (Some receipt1, None)))
    by (vm_compute; reflexivity).
  split; [exact H |].
  exact (Send_returns_confirmed gethErrNonceTooLow mgr6 None scheduleFirstTry
           (Some receipt1, None) H).
Defined.

(** With [NumConfirmations = MaxUint64], [Send] returns a receipt of
    block 1 when the only tip the backend ever answered is 1: the
    receipt has one confirmation where 2^64-1 were asked for. *)
Lemma Send_returns_unconfirmed :
  1 <= NumConfirmations (cfg mgrMax) /\
  Send gethErrNonceTooLow mgrMax None scheduleWrap
    = Ok (Some (Some receiptEarly, None)) /\
  (forall i tipHeight err,
     In (EvAttempt i (RBlockNumber tipHeight err)) scheduleWrap ->
     tipHeight = 1 /\
     ~ (Uint64 (BlockNumber receiptEarly) + NumConfirmations (cfg mgrMax)
        <= tipHeight + 1)).
Proof.
  split; [vm_compute; discriminate |].
  split; [vm_compute; reflexivity |].
  intros i tipHeight err Hin. simpl in Hin.
  repeat (destruct Hin as [Hin | Hin]; [try discriminate |]);
    try contradiction.
  inversion Hin; subst. split; [reflexivity |].
  vm_compute. intros H. apply H. reflexivity.
Qed.

Lemma tick_spawns_only_when_idle_witness :
  step gethErrNonceTooLow mgr6 ripening EvTick = Some ripening /\
  ((IsWaitingForConfirmation (sendState ripening) = true <->
    minedTxs (sendState ripening) <> ∅) /\
   (IsWaitingForConfirmation (sendState ripening) = true ->
    ripening = ripening) /\
   (IsWaitingForConfirmation (sendState ripening) = false ->
    attempts ripening = attempts ripening ++ [AUpdateGasPrice]) /\
   (attempts ripening <> attempts ripening ->
    IsWaitingForConfirmation (sendState ripening) = false)).
Proof.
  assert (H : step gethErrNonceTooLow mgr6 ripening EvTick = Some ripening)
    by (vm_compute; reflexivity).
  split; [exact H |].
  exact (tick_spawns_only_when_idle gethErrNonceTooLow mgr6 ripening ripening H).
Defined.

(** * Further properties of the code *)

(** ** [SendState]: reports and predicates *)

Lemma SendState_eq (s s' : SendState) :
  minedTxs s = minedTxs s' ->
  nonceTooLowCount s = nonceTooLowCount s' ->
  safeAbortNonceTooLowCount s = safeAbortNonceTooLowCount s' ->
  s = s'.
Proof. destruct s, s'; simpl; intros -> -> ->; reflexivity. Qed.

Lemma not_resetsCounter (X : gset Z) (h : Hash) :
  ~ resetsCounter X h -> h ∉ X \/ exists x, x ∈ X /\ x <> h.
Proof.
  unfold resetsCounter. intros Hn.
  destruct (decide (h ∈ X)) as [Hin | Hout]; [| now left].
  right. destruct (decide (X ∖ {[ h ]} = ∅)) as [He | Hne]; [tauto |].
  apply set_choose_L in Hne as [x Hx]. exists x.
  rewrite elem_of_difference, elem_of_singleton in Hx. exact Hx.
Qed.

(** The counter after [TxNotMined], decided by the set before the
    call. *)
Lemma TxNotMined_counter (s : SendState) (h : Hash) :
  nonceTooLowCount (TxNotMined s h) =
  if decide (resetsCounter (minedTxs s) h) then 0 else nonceTooLowCount s.
Proof.
  unfold TxNotMined.
  destruct (decide (resetsCounter (minedTxs s) h)) as [[Hin Hsz] | Hn].
  - apply size_zero_empty in Hsz. rewrite Hsz.
    rewrite (bool_decide_eq_true_2 _ Hin). reflexivity.
  - destruct ((size (minedTxs s ∖ {[ h ]}) =? 0)%nat
              && bool_decide (h ∈ minedTxs s)) eqn:Hc; [| reflexivity].
    exfalso. apply Hn.
    apply andb_true_iff in Hc as [Hsz Hin].
    apply size_zero_empty in Hsz. apply bool_decide_eq_true in Hin.
    split; assumption.
Qed.

Lemma TxNotMined_set (s : SendState) (h : Hash) :
  minedTxs (TxNotMined s h) = minedTxs s ∖ {[ h ]}.
Proof. unfold TxNotMined. destruct (_ && _); reflexivity. Qed.

Lemma TxNotMined_threshold (s : SendState) (h : Hash) :
  safeAbortNonceTooLowCount (TxNotMined s h) = safeAbortNonceTooLowCount s.
Proof. unfold TxNotMined. destruct (_ && _); reflexivity. Qed.

Lemma difference_absent (X : gset Z) (h : Hash) : h ∉ X -> X ∖ {[ h ]} = X.
Proof.
  intros Hn. apply set_eq. intros x.
  rewrite elem_of_difference, elem_of_singleton.
  split; [tauto |]. intros Hx. split; [exact Hx | congruence].
Qed.

Lemma TxNotMined_absent (s : SendState) (h : Hash) :
  h ∉ minedTxs s -> TxNotMined s h = s.
Proof.
  intros Hn. apply SendState_eq.
  - rewrite TxNotMined_set. now apply difference_absent.
  - rewrite TxNotMined_counter.
    destruct (decide (resetsCounter (minedTxs s) h)) as [[Hin _] | _];
      [contradiction | reflexivity].
  - apply TxNotMined_threshold.
Qed.

(** X1. A [TxNotMined] for a hash that is not in [minedTxs] changes
    nothing: neither the set, nor the counter (even when the set is
    empty), nor the threshold. *)
Theorem TxNotMined_unknown_hash (s : SendState) (h : Hash) :
  h ∉ minedTxs s -> TxNotMined s h = s.
Proof. apply TxNotMined_absent. Qed.

Lemma TxNotMined_counter_commute (X : gset Z) (a b : Hash) (c : Z) :
  (if decide (resetsCounter (X ∖ {[ a ]}) b) then 0
   else if decide (resetsCounter X a) then 0 else c)
  = (if decide (resetsCounter (X ∖ {[ b ]}) a) then 0
     else if decide (resetsCounter X b) then 0 else c).
Proof.
  destruct (decide (a = b)) as [-> | Hab]; [reflexivity |].
  repeat case_decide; try reflexivity; exfalso.
  all: repeat match goal with
       | H : ~ resetsCounter _ _ |- _ =>
           let x := fresh "x" in
           apply not_resetsCounter in H as [H | (x & H)];
           [| destruct (decide (x = a)); destruct (decide (x = b)); subst ]
       | H : resetsCounter _ _ |- _ => destruct H as [? ?]
       end.
  all: set_solver.
Qed.

(** X2. [TxNotMined] is idempotent, and two [TxNotMined] commute: the
    state after both does not depend on which report came first. *)
Theorem TxNotMined_idempotent_commute (s : SendState) (a b : Hash) :
  TxNotMined (TxNotMined s a) a = TxNotMined s a /\
  TxNotMined (TxNotMined s a) b = TxNotMined (TxNotMined s b) a.
Proof.
  split.
  - apply TxNotMined_absent. rewrite TxNotMined_set.
    rewrite elem_of_difference, elem_of_singleton. tauto.
  - apply SendState_eq.
    + rewrite !TxNotMined_set. apply set_eq. intros x.
      rewrite !elem_of_difference, !elem_of_singleton. tauto.
    + rewrite !TxNotMined_counter, !TxNotMined_set.
      apply TxNotMined_counter_commute.
    + now rewrite !TxNotMined_threshold.
Qed.

(** X3. The two predicates exclude each other, and a [TxMined] decides
    them: afterwards the state waits for a confirmation and does not
    abort, whatever the counter has reached. *)
Theorem TxMined_waits_never_aborts (s : SendState) (h : Hash) :
  (ShouldAbortImmediately s = true -> IsWaitingForConfirmation s = false) /\
  IsWaitingForConfirmation (TxMined s h) = true /\
  ShouldAbortImmediately (TxMined s h) = false.
Proof.
  assert (Hw : IsWaitingForConfirmation (TxMined s h) = true).
  { unfold IsWaitingForConfirmation. apply size_pos_nonempty.
    simpl. set_solver. }
  split; [| split; [exact Hw |]].
  - unfold ShouldAbortImmediately, IsWaitingForConfirmation.
    destruct (0 <? size (minedTxs s))%nat; [discriminate | reflexivity].
  - unfold ShouldAbortImmediately, IsWaitingForConfirmation in *.
    now rewrite Hw.
Qed.

(** ** [SendState]: the counter along a history *)

Lemma refusals_cons (E : error) (op : StateOp) (ops : list StateOp) :
  refusals E (op :: ops) =
  (if isRefusal E op then 1 else 0) + refusals E ops.
Proof.
  unfold refusals. rewrite filter_cons.
  destruct (isRefusal E op) eqn:Hr.
  - rewrite decide_True by reflexivity. simpl length. lia.
  - rewrite decide_False by discriminate. lia.
Qed.

Lemma refusals_nonneg (E : error) (ops : list StateOp) : 0 <= refusals E ops.
Proof. unfold refusals. lia. Qed.

Lemma wrap64_le (z : Z) : 0 <= z -> 0 <= wrap64 z <= z.
Proof.
  intros Hz. unfold wrap64. split.
  - apply Z.mod_pos_bound, uint64_modulus_pos.
  - apply Z.mod_le; [exact Hz | apply uint64_modulus_pos].
Qed.

Lemma applyOp_counter (E : error) (s : SendState) (op : StateOp) :
  0 <= nonceTooLowCount s ->
  0 <= nonceTooLowCount (applyOp E s op)
    <= nonceTooLowCount s + (if isRefusal E op then 1 else 0).
Proof.
  intros H0. destruct op as [[e |] | h | h]; simpl.
  - destruct (Contains (Error e) (Error E)); simpl.
    + unfold add64. pose proof (wrap64_le (nonceTooLowCount s + 1)). lia.
    + lia.
  - lia.
  - lia.
  - rewrite TxNotMined_counter.
    destruct (decide (resetsCounter (minedTxs s) h)); lia.
Qed.

Lemma applyOp_threshold (E : error) (s : SendState) (op : StateOp) :
  safeAbortNonceTooLowCount (applyOp E s op) = safeAbortNonceTooLowCount s.
Proof.
  destruct op as [[e |] | h | h]; simpl; try reflexivity.
  - destruct (negb _); reflexivity.
  - apply TxNotMined_threshold.
Qed.

Lemma applyOps_counter (E : error) (ops : list StateOp) (s : SendState) :
  0 <= nonceTooLowCount s ->
  0 <= nonceTooLowCount (applyOps E s ops)
    <= nonceTooLowCount s + refusals E ops.
Proof.
  revert s. induction ops as [| op ops IH]; intros s H0.
  - unfold refusals. simpl. lia.
  - rewrite refusals_cons.
    pose proof (applyOp_counter E s op H0) as H1.
    change (applyOps E s (op :: ops)) with (applyOps E (applyOp E s op) ops).
    specialize (IH (applyOp E s op) (proj1 H1)). lia.
Qed.

Lemma applyOps_threshold (E : error) (ops : list StateOp) (s : SendState) :
  safeAbortNonceTooLowCount (applyOps E s ops) = safeAbortNonceTooLowCount s.
Proof.
  revert s. induction ops as [| op ops IH]; intros s; [reflexivity |].
  change (applyOps E s (op :: ops)) with (applyOps E (applyOp E s op) ops).
  rewrite IH. apply applyOp_threshold.
Qed.

(** X4. Along any history of a fresh [SendState], the counter never
    exceeds the number of [NonceTooLow] errors processed so far; so
    [ShouldAbortImmediately] is not true before as many such errors as
    the threshold have been processed. *)
Theorem abort_needs_threshold_refusals
    (E : error) (threshold : Z) (s0 : SendState) (ops : list StateOp) :
  NewSendState threshold = Ok s0 ->
  0 <= nonceTooLowCount (applyOps E s0 ops) <= refusals E ops /\
  (ShouldAbortImmediately (applyOps E s0 ops) = true ->
   threshold <= refusals E ops).
Proof.
  intros Hnew. unfold NewSendState in Hnew.
  destruct (threshold =? 0); [discriminate |]. inversion Hnew; subst s0.
  set (s0 := {| minedTxs := ∅; nonceTooLowCount := 0;
                safeAbortNonceTooLowCount := threshold |}).
  assert (Hc : 0 <= nonceTooLowCount (applyOps E s0 ops) <= refusals E ops).
  { pose proof (applyOps_counter E ops s0) as H. simpl in H. lia. }
  split; [exact Hc |].
  intros Ha. apply ShouldAbortImmediately_true in Ha as [_ Hle].
  rewrite applyOps_threshold in Hle. simpl in Hle. lia.
Qed.

Lemma abort_needs_threshold_refusals_witness :
  NewSendState 3 = Ok fresh3 /\
  (0 <= nonceTooLowCount
          (applyOps gethErrNonceTooLow fresh3
             [OpProcessSendError (Some rpcNonceTooLow); OpTxMined 7;
              OpProcessSendError (Some rpcUnavailable); OpTxNotMined 7;
              OpProcessSendError (Some rpcNonceTooLow)])
     <= refusals gethErrNonceTooLow
          [OpProcessSendError (Some rpcNonceTooLow); OpTxMined 7;
           OpProcessSendError (Some rpcUnavailable); OpTxNotMined 7;
           OpProcessSendError (Some rpcNonceTooLow)] /\
   (ShouldAbortImmediately
      (applyOps gethErrNonceTooLow fresh3
         [OpProcessSendError (Some rpcNonceTooLow); OpTxMined 7;
          OpProcessSendError (Some rpcUnavailable); OpTxNotMined 7;
          OpProcessSendError (Some rpcNonceTooLow)]) = true ->
    3 <= refusals gethErrNonceTooLow
           [OpProcessSendError (Some rpcNonceTooLow); OpTxMined 7;
            OpProcessSendError (Some rpcUnavailable); OpTxNotMined 7;
            OpProcessSendError (Some rpcNonceTooLow)])).
Proof.
  assert (H : NewSendState 3 = Ok fresh3) by reflexivity.
  split; [exact H |].
  exact (abort_needs_threshold_refusals gethErrNonceTooLow 3 fresh3 _ H).
Defined.

Lemma TxNotMined_unknown_hash_witness :
  (8 ∉ minedTxs (sendState ripening)) /\
  TxNotMined (sendState ripening) 8 = sendState ripening.
Proof.
  assert (H : 8 ∉ minedTxs (sendState ripening)).
  { simpl. rewrite elem_of_singleton. discriminate. }
  split; [exact H |].
  exact (TxNotMined_unknown_hash (sendState ripening) 8 H).
Defined.

(** ** [waitMined]: the confirmation test *)

(** X5. Within the range of a [uint64], the confirmation test is
    monotone in the tip: a receipt that [waitMined] returns at one tip
    is returned at every higher tip as well. *)
Theorem confirmation_monotone_in_tip
    (n : Z) (h : Hash) (ctx ctx' : option error) (r : Receipt)
    (tipHeight tipHeight' : Z) (s s' : option SendState) (out : list LogLine) :
  is_uint64 tipHeight -> tipHeight <= tipHeight' ->
  tipHeight' + 1 < uint64_modulus ->
  wstep n h ctx (WTip r) (RBlockNumber tipHeight None) s
    = Some (WReturn (Some r) None, s, out) ->
  wstep n h ctx' (WTip r) (RBlockNumber tipHeight' None) s'
    = Some (WReturn (Some r) None, s',
            [LogMinedCheckingConfirmations h (Uint64 (BlockNumber r))
               tipHeight' n;
             LogTransactionConfirmed h]).
Proof.
  intros Ht Hle Hlt Hstep.
  apply wstep_returns_receipt in Hstep as (_ & t & _ & Hresp & Hc).
  inversion Hresp; subst t. unfold wstep.
  assert (Hc' : confirmed n (Uint64 (BlockNumber r)) tipHeight' = true).
  { unfold confirmed in *. apply Z.leb_le in Hc. apply Z.leb_le.
    unfold is_uint64 in Ht.
    rewrite (add64_exact tipHeight 1) in Hc by (unfold is_uint64; lia).
    rewrite (add64_exact tipHeight' 1) by (unfold is_uint64; lia). lia. }
  now rewrite Hc'.
Qed.

(** X6. When the tip is fetched and the receipt is not accepted, the
    [confsRemaining] that is logged is the difference of the two
    (wrapped) sums of the test and is at least one; the waiter goes on
    to the [select] with the [SendState] as it was. *)
Theorem confsRemaining_positive
    (n : Z) (h : Hash) (ctx : option error) (r : Receipt) (tipHeight : Z)
    (s s' : option SendState) (pc : wpc) (out : list LogLine) :
  wstep n h ctx (WTip r) (RBlockNumber tipHeight None) s = Some (pc, s', out) ->
  pc <> WReturn (Some r) None ->
  pc = WSelect /\ s' = s /\
  out = [LogMinedCheckingConfirmations h (Uint64 (BlockNumber r)) tipHeight n;
         LogNotYetConfirmed h (confsRemaining n (Uint64 (BlockNumber r)) tipHeight)] /\
  confsRemaining n (Uint64 (BlockNumber r)) tipHeight
    = add64 (Uint64 (BlockNumber r)) n - add64 tipHeight 1 /\
  1 <= confsRemaining n (Uint64 (BlockNumber r)) tipHeight <= MaxUint64.
Proof.
  unfold wstep. intros Hstep Hpc.
  destruct (confirmed n (Uint64 (BlockNumber r)) tipHeight) eqn:Hc;
    inversion Hstep; subst; [contradiction |].
  split; [reflexivity |]. split; [reflexivity |]. split; [reflexivity |].
  unfold confirmed in Hc. apply Z.leb_gt in Hc.
  unfold confsRemaining, sub64.
  pose proof (wrap64_range (Uint64 (BlockNumber r) + n)) as Ha.
  pose proof (wrap64_range (tipHeight + 1)) as Hb.
  fold (add64 (Uint64 (BlockNumber r)) n) in Ha.
  fold (add64 tipHeight 1) in Hb.
  unfold is_uint64, MaxUint64 in *.
  rewrite wrap64_small by (unfold is_uint64; lia). lia.
Qed.

Lemma confirmation_monotone_in_tip_witness :
  (is_uint64 105 /\ 105 <= 200 /\ 200 + 1 < uint64_modulus /\
   wstep 6 7 None (WTip receipt1) (RBlockNumber 105 None) None
     = Some (WReturn (Some receipt1) None, None,
             [LogMinedCheckingConfirmations 7 100 105 6;
              LogTransactionConfirmed 7])) /\
  wstep 6 7 (Some Canceled) (WTip receipt1) (RBlockNumber 200 None)
        (Some fresh3)
    = Some (WReturn (Some receipt1) None, Some fresh3,
            [LogMinedCheckingConfirmations 7 (Uint64 (BlockNumber receipt1))
               200 6;
             LogTransactionConfirmed 7]).
Proof.
  assert (H1 : is_uint64 105) by (unfold is_uint64, uint64_modulus; lia).
  assert (H2 : 105 <= 200) by lia.
  assert (H3 : 200 + 1 < uint64_modulus) by (vm_compute; reflexivity).
  assert (H4 : wstep 6 7 None (WTip receipt1) (RBlockNumber 105 None) None
               = Some (WReturn (Some receipt1) None, None,
                       [LogMinedCheckingConfirmations 7 100 105 6;
                        LogTransactionConfirmed 7]))
    by (vm_compute; reflexivity).
  split; [tauto |].
  exact (confirmation_monotone_in_tip 6 7 None (Some Canceled) receipt1
           105 200 None (Some fresh3) _ H1 H2 H3 H4).
Defined.

Lemma confsRemaining_positive_witness :
  (wstep 6 7 None (WTip receipt1) (RBlockNumber 102 None) None
     = Some (WSelect, None,
             [LogMinedCheckingConfirmations 7 100 102 6;
              LogNotYetConfirmed 7 3]) /\
   WSelect <> WReturn (Some receipt1) None) /\
  (WSelect = WSelect /\ @None SendState = None /\
   [LogMinedCheckingConfirmations 7 100 102 6; LogNotYetConfirmed 7 3]
   = [LogMinedCheckingConfirmations 7 (Uint64 (BlockNumber receipt1)) 102 6;
      LogNotYetConfirmed 7
        (confsRemaining 6 (Uint64 (BlockNumber receipt1)) 102)] /\
   confsRemaining 6 (Uint64 (BlockNumber receipt1)) 102
     = add64 (Uint64 (BlockNumber receipt1)) 6 - add64 102 1 /\
   1 <= confsRemaining 6 (Uint64 (BlockNumber receipt1)) 102 <= MaxUint64).
Proof.
  assert (H1 : wstep 6 7 None (WTip receipt1) (RBlockNumber 102 None) None
               = Some (WSelect, None,
                       [LogMinedCheckingConfirmations 7 100 102 6;
                        LogNotYetConfirmed 7 3]))
    by (vm_compute; reflexivity).
  assert (H2 : WSelect <> WReturn (Some receipt1) None) by discriminate.
  split; [split; assumption |].
  exact (confsRemaining_positive 6 7 None receipt1 102 None None WSelect _ H1 H2).
Defined.

(** ** [waitMined]: whole runs *)

Lemma wrun_app (n : Z) (h : Hash) (sc1 sc2 : list (option error * envResp))
    (pc : wpc) (s : option SendState) (log : list LogLine) :
  wrun n h (sc1 ++ sc2) pc s log =
  match wrun n h sc1 pc s log with
  | Some (pc', s', log') => wrun n h sc2 pc' s' log'
  | None => None
  end.
Proof.
  revert pc s log. induction sc1 as [| [ctx resp] sc1 IH]; intros pc s log.
  - reflexivity.
  - simpl. destruct (wstep n h ctx pc resp s) as [[[pc' s'] out] |];
      [apply IH | reflexivity].
Qed.

(** Nothing follows a [return]. *)
Lemma wstep_after_return (n : Z) (h : Hash) (ctx : option error)
    (r : option Receipt) (e : option error) (resp : envResp)
    (s : option SendState) :
  wstep n h ctx (WReturn r e) resp s = None.
Proof. destruct resp; reflexivity. Qed.

(** [waitMined] returns an error only from the [select], and the error
    is the one of the context. *)
Lemma wstep_returns_error (n : Z) (h : Hash) (ctx : option error)
    (w : wpc) (resp : envResp) (s s' : option SendState)
    (e : option error) (out : list LogLine) :
  wstep n h ctx w resp s = Some (WReturn None e, s', out) ->
  w = WSelect /\ resp = RSelectDone /\ e = ctx /\ ctx <> None.
Proof.
  unfold wstep. intros H.
  destruct w as [| [rc |] [er |] | rc | | rc er];
    destruct resp as [| | | | t te | |]; try discriminate.
  - destruct te; [| destruct (confirmed _ _ _)]; discriminate.
  - destruct ctx as [c |]; [| discriminate].
    inversion H; subst. repeat split; discriminate.
Qed.

(** A receipt in hand was in hand before the step, or is the answer of
    the backend to this step. *)
Lemma wstep_carried (n : Z) (h : Hash) (ctx : option error)
    (w w' : wpc) (resp : envResp) (s s' : option SendState)
    (out : list LogLine) (rc : Receipt) :
  wstep n h ctx w resp s = Some (w', s', out) ->
  carried w' = Some rc ->
  carried w = Some rc \/ exists err, resp = RReceipt (Some rc) err.
Proof.
  unfold wstep. intros H Hc.
  destruct w as [| [r |] [er |] | r | | r er];
    destruct resp as [| res | se | ro eo | t te | |]; try discriminate;
    try (inversion H; subst; simpl in Hc; (discriminate || (now left))).
  - inversion H; subst. simpl in Hc. destruct ro as [r |]; [| discriminate].
    inversion Hc; subst. right. now exists eo.
  - destruct te; [| destruct (confirmed _ _ _)];
      inversion H; subst; simpl in Hc; (discriminate || (now left)).
  - destruct ctx; inversion H; subst; simpl in Hc; discriminate.
Qed.

Lemma wrun_carried (n : Z) (h : Hash) (script : list (option error * envResp))
    (pc pc' : wpc) (s s' : option SendState) (log log' : list LogLine)
    (rc : Receipt) :
  wrun n h script pc s log = Some (pc', s', log') ->
  carried pc' = Some rc ->
  carried pc = Some rc \/
  exists ctx err, In (ctx, RReceipt (Some rc) err) script.
Proof.
  revert pc s log. induction script as [| [ctx resp] script IH];
    intros pc s log Hrun Hc.
  - simpl in Hrun. inversion Hrun; subst. now left.
  - simpl in Hrun.
    destruct (wstep n h ctx pc resp s) as [[[pc1 s1] out] |] eqn:Hstep;
      [| discriminate].
    destruct (IH _ _ _ Hrun Hc) as [Hin | (ctx' & err & Hin)].
    + destruct (wstep_carried _ _ _ _ _ _ _ _ _ _ Hstep Hin)
        as [Hold | (err & ->)]; [now left |].
      right. exists ctx, err. now left.
    + right. exists ctx', err. now right.
Qed.

(** X7. What [waitMined] returns. Either a receipt and no error: the
    last thing it did was to fetch a tip that passes the confirmation
    test, and the receipt is one the backend answered earlier in the
    same call. Or no receipt and an error: the last thing it did was to
    take the [Done] branch of the [select], and the error is the one of
    the context at that moment. It never returns both, nor neither. *)
Theorem waitMined_returns
    (tx : Transaction) (queryInterval n : Z) (s s' : option SendState)
    (script : list (option error * envResp))
    (r : option Receipt) (e : option error) (log : list LogLine) :
  waitMined tx queryInterval n s script = Ok (Some (WReturn r e, s', log)) ->
  (exists rc pre ctx tipHeight,
      r = Some rc /\ e = None /\
      script = pre ++ [(ctx, RBlockNumber tipHeight None)] /\
      confirmed n (Uint64 (BlockNumber rc)) tipHeight = true /\
      exists ctx' err, In (ctx', RReceipt (Some rc) err) pre) \/
  (exists err pre,
      r = None /\ e = Some err /\
      script = pre ++ [(Some err, RSelectDone)]).
Proof.
  unfold waitMined. intros Hrun.
  destruct (NewTicker queryInterval); [| discriminate].
  assert (Hrun' : wrun n (TxHash tx) script WQuery s []
                  = Some (WReturn r e, s', log)) by congruence.
  clear Hrun. rename Hrun' into Hrun.
  destruct (exists_last (l := script)) as (pre & [ctx resp] & ->).
  { intros ->. simpl in Hrun. discriminate. }
  rewrite wrun_app in Hrun.
  destruct (wrun n (TxHash tx) pre WQuery s []) as [[[pc1 s1] log1] |] eqn:Hpre;
    [| discriminate].
  simpl in Hrun.
  destruct (wstep n (TxHash tx) ctx pc1 resp s1) as [[[pc2 s2] out] |] eqn:Hstep;
    [| discriminate].
  inversion Hrun; subst pc2 s2 log. clear Hrun.
  destruct r as [rc |].
  - left. apply wstep_returns_receipt in Hstep as (-> & t & -> & -> & Hc).
    exists rc, pre, ctx, t. repeat split; try assumption.
    destruct (wrun_carried _ _ _ _ _ _ _ _ _ rc Hpre eq_refl)
      as [Hq | Hin]; [discriminate | exact Hin].
  - right. apply wstep_returns_error in Hstep as (-> & -> & -> & Hne).
    destruct ctx as [err |]; [| contradiction].
    exists err, pre. repeat split.
Qed.

Lemma waitMined_returns_witness :
  waitMined tx1 1000 6 None scriptCancelled
    = Ok (Some (WReturn None (Some Canceled), None,
                [LogReceiptRetrieveFailed 7 rpcUnavailable])) /\
  ((exists rc pre ctx tipHeight,
       @None Receipt = Some rc /\ Some Canceled = None /\
       scriptCancelled = pre ++ [(ctx, RBlockNumber tipHeight None)] /\
       confirmed 6 (Uint64 (BlockNumber rc)) tipHeight = true /\
       exists ctx' err, In (ctx', RReceipt (Some rc) err) pre) \/
   (exists err pre,
       @None Receipt = None /\ Some Canceled = Some err /\
       scriptCancelled = pre ++ [(Some err, RSelectDone)])).
Proof.
  assert (H : waitMined tx1 1000 6 None scriptCancelled
              = Ok (Some (WReturn None (Some Canceled), None,
                          [LogReceiptRetrieveFailed 7 rpcUnavailable])))
    by (vm_compute; reflexivity).
  split; [exact H |].
  exact (waitMined_returns tx1 1000 6 None None scriptCancelled None
           (Some Canceled) _ H).
Defined.

(** ** [waitMined] and its [SendState] *)

Lemma wstep_without_state (n : Z) (h : Hash) (ctx : option error)
    (pc : wpc) (resp : envResp) (s : SendState) :
  wstep n h ctx pc resp None =
  match wstep n h ctx pc resp (Some s) with
  | Some (pc', _, out) => Some (pc', None, out)
  | None => None
  end.
Proof.
  unfold wstep.
  destruct pc as [| [r |] [er |] | r | | r er];
    destruct resp as [| res | se | ro eo | t te | |]; try reflexivity.
  - destruct te; [| destruct (confirmed _ _ _)]; reflexivity.
  - destruct ctx; reflexivity.
Qed.

Lemma wstep_with_state (n : Z) (h : Hash) (ctx : option error)
    (pc pc' : wpc) (resp : envResp) (s : SendState) (s' : option SendState)
    (out : list LogLine) :
  wstep n h ctx pc resp (Some s) = Some (pc', s', out) ->
  s' = Some s \/ s' = Some (TxMined s h) \/ s' = Some (TxNotMined s h).
Proof.
  unfold wstep. intros H.
  destruct pc as [| [r |] [er |] | r | | r er];
    destruct resp as [| res | se | ro eo | t te | |]; try discriminate;
    simpl in H; try (inversion H; subst; tauto).
  - destruct te; [| destruct (confirmed _ _ _)]; inversion H; subst; tauto.
  - destruct ctx; inversion H; subst; tauto.
Qed.

(** X8. The [SendState] is write-only for the waiter. Against the same
    script, [waitMined] without a [SendState] (as [WaitMined] calls it)
    goes through the same places, writes the same log and returns the
    same as with one; without one it never produces one, and with one
    it never loses it. *)
Theorem waitMined_ignores_SendState
    (n : Z) (h : Hash) (script : list (option error * envResp))
    (pc : wpc) (s : SendState) (log : list LogLine) :
  wrun n h script pc None log =
  match wrun n h script pc (Some s) log with
  | Some (pc', _, log') => Some (pc', None, log')
  | None => None
  end /\
  (forall pc' s' log',
     wrun n h script pc (Some s) log = Some (pc', s', log') -> s' <> None).
Proof.
  revert pc s log. induction script as [| [ctx resp] script IH];
    intros pc s log.
  - simpl. split; [reflexivity |]. intros pc' s' log' H.
    inversion H; subst. discriminate.
  - simpl. rewrite (wstep_without_state n h ctx pc resp s).
    destruct (wstep n h ctx pc resp (Some s)) as [[[pc1 s1] out] |] eqn:Hstep.
    + destruct (wstep_with_state _ _ _ _ _ _ _ _ _ Hstep)
        as [-> | [-> | ->]]; apply IH.
    + split; [reflexivity | discriminate].
Qed.

Lemma TxMined_footprint (s : SendState) (h : Hash) :
  minedTxs (TxMined s h) ∖ {[ h ]} = minedTxs s ∖ {[ h ]}.
Proof.
  simpl. apply set_eq. intros x.
  rewrite !elem_of_difference, elem_of_union, !elem_of_singleton. tauto.
Qed.

Lemma TxNotMined_footprint (s : SendState) (h : Hash) :
  minedTxs (TxNotMined s h) ∖ {[ h ]} = minedTxs s ∖ {[ h ]}.
Proof.
  rewrite TxNotMined_set. apply set_eq. intros x.
  rewrite !elem_of_difference, !elem_of_singleton. tauto.
Qed.

(** X9. What a waiter does to the [SendState]. Whatever the backend
    answers, a run of [waitMined] for [txHash] leaves every other hash
    of [minedTxs] as it was, leaves the threshold as it was, and leaves
    the counter as it was or at zero: a waiter never raises the
    counter. *)
Theorem waitMined_footprint
    (n : Z) (h : Hash) (script : list (option error * envResp))
    (pc pc' : wpc) (s s' : SendState) (log log' : list LogLine) :
  wrun n h script pc (Some s) log = Some (pc', Some s', log') ->
  minedTxs s' ∖ {[ h ]} = minedTxs s ∖ {[ h ]} /\
  safeAbortNonceTooLowCount s' = safeAbortNonceTooLowCount s /\
  (nonceTooLowCount s' = nonceTooLowCount s \/ nonceTooLowCount s' = 0).
Proof.
  revert pc s log. induction script as [| [ctx resp] script IH];
    intros pc s log Hrun.
  - simpl in Hrun. inversion Hrun; subst. tauto.
  - simpl in Hrun.
    destruct (wstep n h ctx pc resp (Some s)) as [[[pc1 s1] out] |] eqn:Hstep;
      [| discriminate].
    destruct (wstep_with_state _ _ _ _ _ _ _ _ _ Hstep) as [-> | [-> | ->]];
      destruct (IH _ _ _ Hrun) as (Hm & Ht & Hc).
    + tauto.
    + rewrite Hm, Ht. split; [apply TxMined_footprint |]. split; tauto.
    + rewrite Hm, Ht, TxNotMined_threshold.
      split; [apply TxNotMined_footprint |]. split; [reflexivity |].
      rewrite TxNotMined_counter in Hc.
      destruct (decide (resetsCounter (minedTxs s) h)); tauto.
Qed.

Lemma waitMined_footprint_witness :
  wrun 6 7 scriptReorg WQuery (Some refusedThrice) []
    = Some (WSelect, Some fresh3,
            [LogMinedCheckingConfirmations 7 100 100 6;
             LogNotYetConfirmed 7 5; LogNotYetMined 7]) /\
  (minedTxs fresh3 ∖ {[ 7 ]} = minedTxs refusedThrice ∖ {[ 7 ]} /\
   safeAbortNonceTooLowCount fresh3 = safeAbortNonceTooLowCount refusedThrice /\
   (nonceTooLowCount fresh3 = nonceTooLowCount refusedThrice \/
    nonceTooLowCount fresh3 = 0)).
Proof.
  assert (H : wrun 6 7 scriptReorg WQuery (Some refusedThrice) []
              = Some (WSelect, Some fresh3,
                      [LogMinedCheckingConfirmations 7 100 100 6;
                       LogNotYetConfirmed 7 5; LogNotYetMined 7])).
  { vm_compute. reflexivity. }
  split; [exact H |].
  exact (waitMined_footprint 6 7 scriptReorg WQuery WSelect refusedThrice
           fresh3 [] _ H).
Defined.

(** ** [Send]: what a step can change *)

Section DriverSteps.

Variable E : error.
Variable m : SimpleTxManager.

(** What the step of an attempt does to the shared state: its own
    place changes; the [SendState] receives at most one call; the
    context is left alone or cancelled; the channel is left alone or,
    when it was empty, filled by a delivering attempt. *)
Lemma astep_shape (d d' : Driver) (i : nat) (pc : apc) (resp : envResp) :
  astep E m d i pc resp = Some d' ->
  exists pc' s cx ch out,
    d' = moved d i pc' s cx ch out /\
    (s = sendState d \/
     (exists err, s = ProcessSendError E (sendState d) err) \/
     (exists h, s = TxMined (sendState d) h) \/
     (exists h, s = TxNotMined (sendState d) h)) /\
    (cx = ctxc d \/ cx = cancel (ctxc d)) /\
    (ch = receiptChan d \/
     (receiptChan d = None /\ exists tx r, pc = ADeliver tx r /\ ch = Some r)).
Proof.
  intros Hast.
  assert (Hg : forall pc' out,
             exists pc'' s cx ch out',
               goes d i pc' out = moved d i pc'' s cx ch out' /\
               (s = sendState d \/
                (exists err, s = ProcessSendError E (sendState d) err) \/
                (exists h, s = TxMined (sendState d) h) \/
                (exists h, s = TxNotMined (sendState d) h)) /\
               (cx = ctxc d \/ cx = cancel (ctxc d)) /\
               (ch = receiptChan d \/
                (receiptChan d = None /\
                 exists tx r, pc = ADeliver tx r /\ ch = Some r))).
  { intros pc' out. unfold goes. eexists _, _, _, _, _.
    split; [reflexivity |]. tauto. }
  destruct pc as [| tx | tx err | tx err | | tx w | tx r | | msg]; simpl in Hast.
  - destruct resp as [| [tx | err] | | | | |]; try discriminate.
    + inversion Hast; subst d'. apply Hg.
    + destruct (isCancelErr err); inversion Hast; subst d'; apply Hg.
  - destruct resp; try discriminate. inversion Hast; subst d'. apply Hg.
  - destruct resp; try discriminate. inversion Hast; subst d'.
    eexists _, _, _, _, _. split; [reflexivity |].
    split; [right; left; eauto | tauto].
  - destruct resp; try (destruct err; discriminate).
    destruct err as [err |].
    + destruct (isCancelErr err);
        [| destruct (ShouldAbortImmediately (sendState d))];
        inversion Hast; subst d'; apply Hg.
    + destruct (NewTicker (ReceiptQueryInterval (cfg m)));
        inversion Hast; subst d'; apply Hg.
  - destruct resp; try discriminate. inversion Hast; subst d'.
    eexists _, _, _, _, _. split; [reflexivity |]. tauto.
  - assert (Hw : forall w' s' out,
               wstep (NumConfirmations (cfg m)) (TxHash tx) (ctxc d) w resp
                 (Some (sendState d)) = Some (w', Some s', out) ->
               exists pc' s cx ch out',
                 moved d i (AWait tx w') s' (ctxc d) (receiptChan d) out
                 = moved d i pc' s cx ch out' /\
                 (s = sendState d \/
                  (exists err, s = ProcessSendError E (sendState d) err) \/
                  (exists h, s = TxMined (sendState d) h) \/
                  (exists h, s = TxNotMined (sendState d) h)) /\
                 (cx = ctxc d \/ cx = cancel (ctxc d)) /\
                 (ch = receiptChan d \/
                  (receiptChan d = None /\
                   exists tx0 r, AWait tx w = ADeliver tx0 r /\ ch = Some r))).
    { intros w' s' out Hws. eexists _, _, _, _, _. split; [reflexivity |].
      split; [| tauto].
      destruct (wstep_with_state _ _ _ _ _ _ _ _ _ Hws) as [H | [H | H]];
        inversion H; subst; eauto. }
    destruct w as [| rc er | rc | | rc er].
    1-4: destruct (wstep _ _ _ _ _ _) as [[[w' [s' |]] out] |] eqn:Hws;
      try discriminate; inversion Hast; subst d'; now apply Hw.
    destruct resp.
    2-7: destruct (wstep _ _ _ _ _ _) as [[[w' [s' |]] out] |] eqn:Hws;
      try discriminate; inversion Hast; subst d'; now apply Hw.
    destruct rc as [rc |]; inversion Hast; subst d'; apply Hg.
  - destruct resp; try discriminate.
    destruct (receiptChan d) as [r0 |] eqn:Hchan; inversion Hast; subst d'.
    + apply Hg.
    + eexists _, _, _, _, _. split; [reflexivity |].
      split; [tauto |]. split; [tauto |]. right. eauto.
  - destruct resp; discriminate.
  - (* APanic *)
    destruct resp; discriminate.
Qed.

Lemma cancel_sticky (cx : option error) (e : error) :
  cx = Some e -> cancel cx = Some e.
Proof. intros ->. reflexivity. Qed.

Lemma step_ctxc_sticky (d d' : Driver) (ev : event) (e : error) :
  step E m d ev = Some d' -> ctxc d = Some e -> ctxc d' = Some e.
Proof.
  intros Hstep He. destruct ev as [| | | | err | i resp]; simpl in Hstep.
  - destruct (main d); try discriminate.
    destruct (IsWaitingForConfirmation _); inversion Hstep; subst; assumption.
  - destruct (main d), (ctxc d); inversion Hstep; subst; assumption.
  - destruct (main d), (receiptChan d); inversion Hstep; subst; assumption.
  - destruct (main d); try discriminate.
    + inversion Hstep; subst; simpl. now apply cancel_sticky.
    + destruct (allDone _); inversion Hstep; subst; assumption.
  - destruct (parent d); inversion Hstep; subst; simpl. now rewrite He.
  - destruct (attempts d !! i) as [pc |]; [| discriminate].
    apply astep_shape in Hstep
      as (pc' & s & cx & ch & out & -> & _ & [-> | ->] & _); simpl;
      [assumption | now apply cancel_sticky].
Qed.

(** Once the derived context has an error, no later step of [Send]
    changes it. *)
Lemma run_ctxc_sticky (d d' : Driver) (evs : list event) (e : error) :
  run E m d evs = Some d' -> ctxc d = Some e -> ctxc d' = Some e.
Proof.
  revert d. induction evs as [| ev evs IH]; intros d Hrun He.
  - simpl in Hrun. inversion Hrun; subst. assumption.
  - simpl in Hrun. destruct (step E m d ev) as [d1 |] eqn:Hstep;
      [| discriminate].
    eapply IH; [exact Hrun |]. eapply step_ctxc_sticky; eassumption.
Qed.

(** What the [return] statement has fixed: a receipt and no error, or
    no receipt and the error the derived context has. *)
Lemma step_result_ctxc (d d' : Driver) (ev : event) :
  step E m d ev = Some d' ->
  (forall res, mainResult (main d) = Some res ->
     (exists r, res = (Some r, None)) \/
     (exists e, res = (None, Some e) /\ ctxc d = Some e)) ->
  forall res, mainResult (main d') = Some res ->
    (exists r, res = (Some r, None)) \/
    (exists e, res = (None, Some e) /\ ctxc d' = Some e).
Proof.
  intros Hstep HR res Hres.
  assert (Hkeep : mainResult (main d) = Some res ->
                  (exists r, res = (Some r, None)) \/
                  (exists e, res = (None, Some e) /\ ctxc d' = Some e)).
  { intros Hold. destruct (HR res Hold) as [Hl | (e & -> & He)]; [now left |].
    right. exists e. split; [reflexivity |].
    eapply step_ctxc_sticky; eassumption. }
  destruct ev as [| | | | err | i resp]; simpl in Hstep.
  - destruct (main d) eqn:Hm; try discriminate.
    destruct (IsWaitingForConfirmation _); inversion Hstep; subst d';
      simpl in Hres; rewrite ?Hm in Hres; discriminate.
  - destruct (main d) eqn:Hm; try discriminate.
    destruct (ctxc d) as [e |] eqn:He; inversion Hstep; subst d'.
    simpl in Hres. inversion Hres; subst res.
    right. exists e. split; reflexivity.
  - destruct (main d) eqn:Hm; try discriminate.
    destruct (receiptChan d) as [r |]; inversion Hstep; subst d'.
    simpl in Hres. inversion Hres; subst res. left. now exists r.
  - destruct (main d) as [| r0 | r0 | r0] eqn:Hm; try discriminate.
    + inversion Hstep; subst d'. simpl in Hres. inversion Hres; subst r0.
      apply Hkeep. reflexivity.
    + destruct (allDone _); inversion Hstep; subst d'.
      simpl in Hres. inversion Hres; subst r0. apply Hkeep. reflexivity.
  - destruct (parent d); inversion Hstep; subst d'. simpl in Hres.
    apply Hkeep. exact Hres.
  - destruct (attempts d !! i) as [pc |]; [| discriminate].
    pose proof Hstep as Hast.
    apply astep_shape in Hast as (pc' & s & cx & ch & out & -> & _).
    simpl in Hres. apply Hkeep. exact Hres.
Qed.

Lemma run_result_ctxc (evs : list event) (d d' : Driver) :
  run E m d evs = Some d' ->
  (forall res, mainResult (main d) = Some res ->
     (exists r, res = (Some r, None)) \/
     (exists e, res = (None, Some e) /\ ctxc d = Some e)) ->
  forall res, mainResult (main d') = Some res ->
    (exists r, res = (Some r, None)) \/
    (exists e, res = (None, Some e) /\ ctxc d' = Some e).
Proof.
  revert d. induction evs as [| ev evs IH]; intros d Hrun HR.
  - simpl in Hrun. inversion Hrun; subst. exact HR.
  - simpl in Hrun. destruct (step E m d ev) as [d1 |] eqn:Hstep;
      [| discriminate].
    apply (IH d1 Hrun). eapply step_result_ctxc; eassumption.
Qed.

(** X10. The first cause of the cancellation sticks, and it is the
    one [Send] reports. Once the derived context has an error [e], no
    later step of [Send] changes it: not a [cancel()] of an attempt,
    not the deferred [cancel()], not the end of the caller's context.
    A call that returns after that point returns a receipt with a nil
    error, or a nil receipt with exactly [e]. *)
Theorem first_cancellation_cause_is_reported
    (ctx : option error) (evs1 evs2 : list event) (d0 d1 : Driver)
    (e : error) (res : option Receipt * option error) :
  SendStart m ctx = Ok d0 ->
  run E m d0 evs1 = Some d1 ->
  ctxc d1 = Some e ->
  Send E m ctx (evs1 ++ evs2) = Ok (Some res) ->
  (forall evs d', run E m d1 evs = Some d' -> ctxc d' = Some e) /\
  (exists d2, run E m d1 evs2 = Some d2 /\ returned d2 = Some res /\
              ctxc d2 = Some e) /\
  ((exists r, res = (Some r, None)) \/ res = (None, Some e)).
Proof.
  intros Hstart Hrun1 He Hsend.
  assert (Hsticky : forall evs d', run E m d1 evs = Some d' -> ctxc d' = Some e).
  { intros evs d' Hrun'. eapply run_ctxc_sticky; eassumption. }
  split; [exact Hsticky |].
  destruct (Send_Ok_inv E m ctx _ res Hsend)
    as (d0' & d2 & Hstart' & _ & Hrun & _ & Hret).
  rewrite Hstart in Hstart'. inversion Hstart'; subst d0'.
  rewrite run_app, Hrun1 in Hrun.
  split; [exists d2; repeat split; [exact Hrun | exact Hret | now apply (Hsticky evs2)] |].
  assert (HR0 : forall res, mainResult (main d0) = Some res ->
                  (exists r, res = (Some r, None)) \/
                  (exists e, res = (None, Some e) /\ ctxc d0 = Some e)).
  { unfold SendStart in Hstart. destruct (NewSendState _); [| discriminate].
    inversion Hstart; subst; simpl. intros res0 H0. discriminate. }
  pose proof (run_result_ctxc evs1 d0 d1 Hrun1 HR0) as HR1.
  pose proof (run_result_ctxc evs2 d1 d2 Hrun HR1) as HR2.
  assert (Hm : mainResult (main d2) = Some res).
  { unfold returned in Hret. destruct (main d2); try discriminate.
    simpl. exact Hret. }
  destruct (HR2 res Hm) as [Hl | (e' & -> & He')]; [now left |].
  right. rewrite (Hsticky evs2 d2 Hrun) in He'. congruence.
Qed.

End DriverSteps.

(** ** [Send]: invariants of a run *)

Section DriverRuns.

Variable E : error.
Variable m : SimpleTxManager.

Lemma allDone_lookup (l : list apc) (i : nat) (pc : apc) :
  allDone l = true -> l !! i = Some pc -> pc = ADone.
Proof.
  unfold allDone. rewrite forallb_forall. intros Hall Hlk.
  assert (Hin : In pc l) by (apply list_elem_of_In; eapply list_elem_of_lookup_2; eassumption).
  specialize (Hall pc Hin). destruct pc; (discriminate || reflexivity).
Qed.

Lemma astep_done (d : Driver) (i : nat) (resp : envResp) :
  astep E m d i ADone resp = None.
Proof. destruct resp; reflexivity. Qed.

(** Where the main goroutine stands, and what that implies. *)
Lemma step_main_progress (d d' : Driver) (ev : event) :
  step E m d ev = Some d' ->
  match main d with
  | MSelect | MCancel _ => True
  | MWait _ => ctxc d <> None
  | MReturned _ => ctxc d <> None /\ allDone (attempts d) = true
  end ->
  match main d' with
  | MSelect | MCancel _ => True
  | MWait _ => ctxc d' <> None
  | MReturned _ => ctxc d' <> None /\ allDone (attempts d') = true
  end.
Proof.
  intros Hstep HJ. destruct ev as [| | | | err | i resp]; simpl in Hstep.
  - destruct (main d) eqn:Hm; try discriminate.
    destruct (IsWaitingForConfirmation _); inversion Hstep; subst d'; simpl;
      [now rewrite Hm | exact I].
  - destruct (main d), (ctxc d); inversion Hstep; subst d'; simpl; exact I.
  - destruct (main d), (receiptChan d); inversion Hstep; subst d'; simpl; exact I.
  - destruct (main d) eqn:Hm; try discriminate.
    + inversion Hstep; subst d'; simpl. destruct (ctxc d); discriminate.
    + destruct (allDone (attempts d)) eqn:Ha; inversion Hstep; subst d'; simpl.
      split; assumption.
  - destruct (parent d); inversion Hstep; subst d'; simpl.
    destruct (main d); auto.
    + intros Hc. destruct (ctxc d); [discriminate | contradiction].
    + destruct HJ as [Hc Ha]. split; [| exact Ha].
      destruct (ctxc d); [discriminate | contradiction].
  - destruct (attempts d !! i) as [pc |] eqn:Hlk; [| discriminate].
    pose proof Hstep as Hast.
    apply astep_shape in Hstep
      as (pc' & s & cx & ch & out & -> & _ & Hcx & _); simpl.
    assert (Hk : ctxc d <> None -> cx <> None).
    { intros Hc. destruct Hcx as [-> | ->]; [exact Hc |].
      destruct (ctxc d); discriminate. }
    destruct (main d); auto.
    destruct HJ as [Hc Ha]. exfalso.
    apply (allDone_lookup _ _ _ Ha) in Hlk. subst pc.
    rewrite astep_done in Hast. discriminate.
Qed.

(** X11. [Send] returns only after its deferred calls have run: when
    the call has returned, the derived context is cancelled and every
    attempt that was ever spawned has finished. *)
Theorem Send_returns_after_all_attempts
    (ctx : option error) (d0 d : Driver) (evs : list event)
    (res : option Receipt * option error) :
  SendStart m ctx = Ok d0 ->
  run E m d0 evs = Some d ->
  returned d = Some res ->
  ctxc d <> None /\ allDone (attempts d) = true /\
  forall i pc, attempts d !! i = Some pc -> pc = ADone.
Proof.
  intros Hstart Hrun Hret.
  assert (HJ0 : match main d0 with
                | MSelect | MCancel _ => True
                | MWait _ => ctxc d0 <> None
                | MReturned _ => ctxc d0 <> None /\ allDone (attempts d0) = true
                end).
  { unfold SendStart in Hstart. destruct (NewSendState _); [| discriminate].
    inversion Hstart; subst; simpl. exact I. }
  clear Hstart. revert d0 Hrun HJ0.
  induction evs as [| ev evs IH]; intros d0 Hrun HJ0.
  - simpl in Hrun. inversion Hrun; subst d0.
    unfold returned in Hret. destruct (main d); try discriminate.
    destruct HJ0 as [Hc Ha]. split; [exact Hc |]. split; [exact Ha |].
    intros i pc. apply allDone_lookup. exact Ha.
  - simpl in Hrun. destruct (step E m d0 ev) as [d1 |] eqn:Hstep;
      [| discriminate].
    apply (IH d1 Hrun). eapply step_main_progress; eassumption.
Qed.

Lemma step_sendState_reachable (threshold : Z) (d d' : Driver) (ev : event) :
  step E m d ev = Some d' ->
  reachable E threshold (sendState d) ->
  reachable E threshold (sendState d').
Proof.
  intros Hstep Hr. destruct ev as [| | | | err | i resp]; simpl in Hstep.
  - destruct (main d); try discriminate.
    destruct (IsWaitingForConfirmation _); inversion Hstep; subst d'; assumption.
  - destruct (main d), (ctxc d); inversion Hstep; subst d'; assumption.
  - destruct (main d), (receiptChan d); inversion Hstep; subst d'; assumption.
  - destruct (main d); try discriminate.
    + inversion Hstep; subst d'; assumption.
    + destruct (allDone _); inversion Hstep; subst d'; assumption.
  - destruct (parent d); inversion Hstep; subst d'; assumption.
  - destruct (attempts d !! i) as [pc |]; [| discriminate].
    apply astep_shape in Hstep
      as (pc' & s & cx & ch & out & -> & Hs & _); simpl.
    destruct Hs as [-> | [(err & ->) | [(h & ->) | (h & ->)]]];
      [assumption | | |]; now constructor.
Qed.

(** X12. The [SendState] of a [Send] is used as a [SendState]: in
    every state of every run it is one that [NewSendState] with the
    configured threshold reaches through its three mutators; so its
    threshold is the configured one throughout, and it tells to abort
    exactly when nothing is mined and the counter has reached it. *)
Theorem Send_sendState_reachable
    (ctx : option error) (d0 d : Driver) (evs : list event) :
  SendStart m ctx = Ok d0 ->
  run E m d0 evs = Some d ->
  reachable E (SafeAbortNonceTooLowCount (cfg m)) (sendState d) /\
  safeAbortNonceTooLowCount (sendState d) = SafeAbortNonceTooLowCount (cfg m) /\
  SafeAbortNonceTooLowCount (cfg m) <> 0 /\
  (ShouldAbortImmediately (sendState d) = true <->
   minedTxs (sendState d) = ∅ /\
   SafeAbortNonceTooLowCount (cfg m) <= nonceTooLowCount (sendState d)).
Proof.
  intros Hstart Hrun.
  assert (Hr : reachable E (SafeAbortNonceTooLowCount (cfg m)) (sendState d)).
  { assert (H0 : reachable E (SafeAbortNonceTooLowCount (cfg m)) (sendState d0)).
    { unfold SendStart in Hstart.
      destruct (NewSendState (SafeAbortNonceTooLowCount (cfg m))) as [s |] eqn:Hn;
        [| discriminate].
      inversion Hstart; subst; simpl. now apply reachable_new. }
    clear Hstart. revert d0 Hrun H0.
    induction evs as [| ev evs IH]; intros d0 Hrun H0.
    - simpl in Hrun. inversion Hrun; subst. assumption.
    - simpl in Hrun. destruct (step E m d0 ev) as [d1 |] eqn:Hstep;
        [| discriminate].
      apply (IH d1 Hrun). eapply step_sendState_reachable; eassumption. }
  split; [exact Hr |].
  destruct (reachable_threshold _ _ _ Hr) as [Ht Hnz].
  split; [exact Ht |]. split; [exact Hnz |].
  rewrite ShouldAbortImmediately_true, Ht. reflexivity.
Qed.

Lemma ticks_cons (ev : event) (evs : list event) :
  ticks (ev :: evs) = ((if isTick ev then 1 else 0) + ticks evs)%nat.
Proof.
  unfold ticks. rewrite filter_cons. destruct (isTick ev).
  - rewrite decide_True by reflexivity. reflexivity.
  - rewrite decide_False by discriminate. reflexivity.
Qed.

Lemma step_attempts_length (d d' : Driver) (ev : event) :
  step E m d ev = Some d' ->
  (length (attempts d) <= length (attempts d')
   <= length (attempts d) + (if isTick ev then 1 else 0))%nat.
Proof.
  intros Hstep. destruct ev as [| | | | err | i resp].
  - simpl in Hstep. destruct (main d); try discriminate.
    destruct (IsWaitingForConfirmation _); inversion Hstep; subst d'; simpl.
    + lia.
    + rewrite length_app. simpl. lia.
  - rewrite (spawn_only_on_tick E m d d' _ Hstep) by discriminate. simpl. lia.
  - rewrite (spawn_only_on_tick E m d d' _ Hstep) by discriminate. simpl. lia.
  - rewrite (spawn_only_on_tick E m d d' _ Hstep) by discriminate. simpl. lia.
  - rewrite (spawn_only_on_tick E m d d' _ Hstep) by discriminate. simpl. lia.
  - rewrite (spawn_only_on_tick E m d d' _ Hstep) by discriminate. simpl. lia.
Qed.

(** X13. [Send] spawns one attempt at its start and at most one per
    tick of the resubmission ticker, and an attempt is never removed
    from the wait group: after any schedule the number of attempts is
    at least one and at most one more than the number of ticks. *)
Theorem Send_attempts_bounded_by_ticks
    (ctx : option error) (d0 d : Driver) (evs : list event) :
  SendStart m ctx = Ok d0 ->
  run E m d0 evs = Some d ->
  (1 <= length (attempts d) <= 1 + ticks evs)%nat.
Proof.
  intros Hstart Hrun.
  assert (H0 : length (attempts d0) = 1%nat).
  { unfold SendStart in Hstart. destruct (NewSendState _); [| discriminate].
    inversion Hstart; subst; reflexivity. }
  assert (H : (length (attempts d0) <= length (attempts d)
               <= length (attempts d0) + ticks evs)%nat).
  { clear Hstart H0. revert d0 Hrun.
    induction evs as [| ev evs IH]; intros d0 Hrun.
    - simpl in Hrun. inversion Hrun; subst. unfold ticks. simpl. lia.
    - simpl in Hrun. destruct (step E m d0 ev) as [d1 |] eqn:Hstep;
        [| discriminate].
      specialize (IH d1 Hrun). rewrite ticks_cons.
      pose proof (step_attempts_length d0 d1 ev Hstep). lia. }
  lia.
Qed.

Lemma step_first_wins (r : Receipt) (d d' : Driver) (ev : event) :
  step E m d ev = Some d' ->
  (main d = MSelect /\ receiptChan d = Some r) \/
  (exists res, mainResult (main d) = Some res /\
               (res = (Some r, None) \/ exists e, res = (None, Some e))) ->
  (main d' = MSelect /\ receiptChan d' = Some r) \/
  (exists res, mainResult (main d') = Some res /\
               (res = (Some r, None) \/ exists e, res = (None, Some e))).
Proof.
  intros Hstep HK. destruct ev as [| | | | err | i resp]; simpl in Hstep.
  - destruct (main d) eqn:Hm; try discriminate.
    destruct (IsWaitingForConfirmation _); inversion Hstep; subst d'; simpl.
    + now rewrite Hm.
    + destruct HK as [[_ Hc] | (res & Hres & _)]; [| discriminate]. now left.
  - destruct (main d) eqn:Hm; try discriminate.
    destruct (ctxc d) as [e |]; inversion Hstep; subst d'; simpl.
    right. eexists. split; [reflexivity |]. right. now exists e.
  - destruct (main d) eqn:Hm; try discriminate.
    destruct (receiptChan d) as [r0 |] eqn:Hc; inversion Hstep; subst d'; simpl.
    destruct HK as [[_ Hc'] | (res & Hres & _)]; [| discriminate].
    inversion Hc'; subst r0.
    right. eexists. split; [reflexivity |]. now left.
  - destruct (main d) eqn:Hm; try discriminate.
    + inversion Hstep; subst d'; simpl.
      destruct HK as [[Hc _] | HK]; [discriminate | right; exact HK].
    + destruct (allDone _); inversion Hstep; subst d'; simpl.
      destruct HK as [[Hc _] | HK]; [discriminate | right; exact HK].
  - destruct (parent d); inversion Hstep; subst d'; simpl. exact HK.
  - destruct (attempts d !! i) as [pc |]; [| discriminate].
    apply astep_shape in Hstep
      as (pc' & s & cx & ch & out & -> & _ & _ & Hch); simpl.
    destruct HK as [[Hm Hc] | HK]; [| right; exact HK].
    left. split; [exact Hm |].
    destruct Hch as [-> | [Hnone _]]; [exact Hc | congruence].
Qed.

(** X14. The first receipt wins. Once a receipt is in [receiptChan]
    while the main loop is at its [select], no attempt replaces it,
    and the only things the call can return are that receipt with a
    nil error, or no receipt with an error. *)
Theorem Send_first_receipt_wins
    (r : Receipt) (d d' : Driver) (evs : list event) :
  run E m d evs = Some d' ->
  main d = MSelect -> receiptChan d = Some r ->
  (main d' = MSelect /\ receiptChan d' = Some r) \/
  (exists res, mainResult (main d') = Some res /\
               (res = (Some r, None) \/ exists e, res = (None, Some e))).
Proof.
  intros Hrun Hm Hc.
  assert (HK : (main d = MSelect /\ receiptChan d = Some r) \/
               (exists res, mainResult (main d) = Some res /\
                  (res = (Some r, None) \/ exists e, res = (None, Some e))))
    by (left; split; assumption).
  clear Hm Hc. revert d Hrun HK.
  induction evs as [| ev evs IH]; intros d Hrun HK.
  - simpl in Hrun. inversion Hrun; subst. exact HK.
  - simpl in Hrun. destruct (step E m d ev) as [d1 |] eqn:Hstep;
      [| discriminate].
    apply (IH d1 Hrun). eapply step_first_wins; eassumption.
Qed.

End DriverRuns.

(** ** Instances on runs of [Send] *)

Lemma first_cancellation_cause_is_reported_witness :
  (SendStart mgr6 (Some DeadlineExceeded) = Ok startedExpired /\
   run gethErrNonceTooLow mgr6 startedExpired [] = Some startedExpired /\
   ctxc startedExpired = Some DeadlineExceeded /\
   Send gethErrNonceTooLow mgr6 (Some DeadlineExceeded)
     ([] ++ scheduleGasPriceFails)
     = Ok (Some (None, Some DeadlineExceeded))) /\
  ((forall evs d',
      run gethErrNonceTooLow mgr6 startedExpired evs = Some d' ->
      ctxc d' = Some DeadlineExceeded) /\
   (exists d2,
      run gethErrNonceTooLow mgr6 startedExpired scheduleGasPriceFails
        = Some d2 /\
      returned d2 = Some (None, Some DeadlineExceeded) /\
      ctxc d2 = Some DeadlineExceeded) /\
   ((exists r, (@None Receipt, Some DeadlineExceeded) = (Some r, None)) \/
    (@None Receipt, Some DeadlineExceeded) = (None, Some DeadlineExceeded))).
Proof.
  assert (H1 : SendStart mgr6 (Some DeadlineExceeded) = Ok startedExpired)
    by reflexivity.
  assert (H2 : run gethErrNonceTooLow mgr6 startedExpired []
               = Some startedExpired) by reflexivity.
  assert (H3 : ctxc startedExpired = Some DeadlineExceeded) by reflexivity.
  assert (H4 : Send gethErrNonceTooLow mgr6 (Some DeadlineExceeded)
                 ([] ++ scheduleGasPriceFails)
               = Ok (Some (None, Some DeadlineExceeded)))
    by (vm_compute; reflexivity).
  split; [repeat split; assumption |].
  exact (first_cancellation_cause_is_reported gethErrNonceTooLow mgr6
           (Some DeadlineExceeded) [] scheduleGasPriceFails
           startedExpired startedExpired DeadlineExceeded
           (None, Some DeadlineExceeded) H1 H2 H3 H4).
Defined.

(** An attempt panics in the [time.NewTicker] of [waitMined] when the
    query interval is zero; the call does not return. *)
Example Send_panics_on_zero_query_interval :
  Send gethErrNonceTooLow {| cfg := mkConfig 48000 0 6 3 |} None
    [ EvAttempt 0 (RGasPrice (inl tx1)); EvAttempt 0 (RSendTx None);
      EvAttempt 0 RStep; EvAttempt 0 RStep ]
    = Panic "non-positive interval for NewTicker".
Proof. vm_compute. reflexivity. Qed.

Lemma Send_returns_after_all_attempts_witness :
  exists d0 d,
    (SendStart mgr6 None = Ok d0 /\
     run gethErrNonceTooLow mgr6 d0 scheduleNonceAbort = Some d /\
     returned d = Some (None, Some Canceled)) /\
    (ctxc d <> None /\ allDone (attempts d) = true /\
     forall i pc, attempts d !! i = Some pc -> pc = ADone).
Proof.
  destruct (SendStart mgr6 None) as [d0 | msg] eqn:Hstart.
  - destruct (run gethErrNonceTooLow mgr6 d0 scheduleNonceAbort)
      as [d |] eqn:Hrun.
    + assert (Hret : returned d = Some (None, Some Canceled)).
      { vm_compute in Hstart. inversion Hstart; subst d0.
        vm_compute in Hrun. inversion Hrun; subst d. reflexivity. }
      exists d0, d. split; [repeat split; assumption |].
      exact (Send_returns_after_all_attempts gethErrNonceTooLow mgr6 None d0 d
               scheduleNonceAbort (None, Some Canceled) Hstart Hrun Hret).
    + vm_compute in Hstart. inversion Hstart; subst d0.
      vm_compute in Hrun. discriminate.
  - vm_compute in Hstart. discriminate.
Defined.

Lemma Send_sendState_reachable_witness :
  exists d0 d,
    (SendStart mgr6 None = Ok d0 /\
     run gethErrNonceTooLow mgr6 d0 scheduleNonceAbort = Some d) /\
    (reachable gethErrNonceTooLow (SafeAbortNonceTooLowCount (cfg mgr6))
       (sendState d) /\
     safeAbortNonceTooLowCount (sendState d)
       = SafeAbortNonceTooLowCount (cfg mgr6) /\
     SafeAbortNonceTooLowCount (cfg mgr6) <> 0 /\
     (ShouldAbortImmediately (sendState d) = true <->
      minedTxs (sendState d) = ∅ /\
      SafeAbortNonceTooLowCount (cfg mgr6) <= nonceTooLowCount (sendState d))).
Proof.
  destruct (SendStart mgr6 None) as [d0 | msg] eqn:Hstart.
  - destruct (run gethErrNonceTooLow mgr6 d0 scheduleNonceAbort)
      as [d |] eqn:Hrun.
    + exists d0, d. split; [split; [reflexivity | assumption] |].
      exact (Send_sendState_reachable gethErrNonceTooLow mgr6 None d0 d
               scheduleNonceAbort Hstart Hrun).
    + vm_compute in Hstart. inversion Hstart; subst d0.
      vm_compute in Hrun. discriminate.
  - vm_compute in Hstart. discriminate.
Defined.

Lemma Send_attempts_bounded_by_ticks_witness :
  exists d0 d,
    (SendStart mgr6 None = Ok d0 /\
     run gethErrNonceTooLow mgr6 d0 scheduleNonceAbort = Some d) /\
    (1 <= length (attempts d) <= 1 + ticks scheduleNonceAbort)%nat.
Proof.
  destruct (SendStart mgr6 None) as [d0 | msg] eqn:Hstart.
  - destruct (run gethErrNonceTooLow mgr6 d0 scheduleNonceAbort)
      as [d |] eqn:Hrun.
    + exists d0, d. split; [split; [reflexivity | assumption] |].
      exact (Send_attempts_bounded_by_ticks gethErrNonceTooLow mgr6 None d0 d
               scheduleNonceAbort Hstart Hrun).
    + vm_compute in Hstart. inversion Hstart; subst d0.
      vm_compute in Hrun. discriminate.
  - vm_compute in Hstart. discriminate.
Defined.

Lemma Send_first_receipt_wins_witness :
  exists d',
    (run gethErrNonceTooLow mgr6 delivered scheduleSecondDelivery = Some d' /\
     main delivered = MSelect /\ receiptChan delivered = Some receipt1) /\
    ((main d' = MSelect /\ receiptChan d' = Some receipt1) \/
     (exists res, mainResult (main d') = Some res /\
        (res = (Some receipt1, None) \/ exists e, res = (None, Some e)))).
Proof.
  destruct (run gethErrNonceTooLow mgr6 delivered scheduleSecondDelivery)
    as [d' |] eqn:Hrun.
  - exists d'. split; [repeat split |].
    exact (Send_first_receipt_wins gethErrNonceTooLow mgr6 receipt1 delivered d'
             scheduleSecondDelivery Hrun eq_refl eq_refl).
  - vm_compute in Hrun. discriminate.
Defined.

Example scenario_second_delivery_dropped :
  option_map returned
    (run gethErrNonceTooLow mgr6 delivered scheduleSecondDelivery)
  = Some (Some (Some receipt1, None)).
Proof. vm_compute. reflexivity. Qed.

(** ** [SendState]: the streak that aborts *)

Lemma ProcessSendError_mined (E : error) (s : SendState) (err : option error) :
  minedTxs (ProcessSendError E s err) = minedTxs s.
Proof.
  unfold ProcessSendError. destruct err as [e |]; [| reflexivity].
  destruct (negb _); reflexivity.
Qed.

Lemma applyOps_unmined (E : error) (ops : list StateOp) (s : SendState) :
  Forall (fun op => forall h, op <> OpTxMined h) ops ->
  minedTxs s = ∅ -> 0 <= nonceTooLowCount s ->
  nonceTooLowCount s + refusals E ops < uint64_modulus ->
  minedTxs (applyOps E s ops) = ∅ /\
  nonceTooLowCount (applyOps E s ops) = nonceTooLowCount s + refusals E ops.
Proof.
  revert s. induction ops as [| op ops IH]; intros s Hall Hm H0 Hlt.
  - unfold refusals. simpl. split; [exact Hm | lia].
  - inversion Hall as [| ? ? Hop Hops]; subst.
    rewrite refusals_cons in *.
    pose proof (refusals_nonneg E ops) as Hr.
    change (applyOps E s (op :: ops)) with (applyOps E (applyOp E s op) ops).
    destruct op as [err | h | h].
    + assert (Hc : nonceTooLowCount (applyOp E s (OpProcessSendError err))
                   = nonceTooLowCount s
                     + (if isRefusal E (OpProcessSendError err) then 1 else 0)).
      { destruct err as [e |]; [| simpl; lia].
        cbn [applyOp isRefusal ProcessSendError] in *.
        destruct (Contains (Error e) (Error E)); cbn [negb nonceTooLowCount];
          [| lia].
        apply add64_exact. unfold is_uint64. lia. }
      destruct (IH (applyOp E s (OpProcessSendError err)) Hops) as [Hm' Hc'].
      * simpl. now rewrite ProcessSendError_mined.
      * rewrite Hc. destruct (isRefusal E _); lia.
      * rewrite Hc. lia.
      * split; [exact Hm' |]. rewrite Hc', Hc. lia.
    + exfalso. now apply (Hop h).
    + assert (Hs : applyOp E s (OpTxNotMined h) = s).
      { simpl. apply TxNotMined_absent. rewrite Hm. apply not_elem_of_empty. }
      rewrite Hs. simpl in *.
      destruct (IH s Hops Hm H0) as [Hm' Hc']; [lia |].
      split; [exact Hm' | lia].
Qed.

(** X15. While no variant has been seen mined, the counter counts: on
    a fresh [SendState] and along any history without [TxMined] that
    holds fewer than 2^64 [NonceTooLow] errors, [minedTxs] stays empty,
    the counter is the number of those errors, and
    [ShouldAbortImmediately] is true exactly when that number has
    reached the threshold. Other errors and [TxNotMined] reports in
    between do not interrupt the streak. *)
Theorem refusals_reach_threshold
    (E : error) (threshold : Z) (s0 : SendState) (ops : list StateOp) :
  NewSendState threshold = Ok s0 ->
  Forall (fun op => forall h, op <> OpTxMined h) ops ->
  refusals E ops < uint64_modulus ->
  minedTxs (applyOps E s0 ops) = ∅ /\
  nonceTooLowCount (applyOps E s0 ops) = refusals E ops /\
  (ShouldAbortImmediately (applyOps E s0 ops) = true <->
   threshold <= refusals E ops).
Proof.
  intros Hnew Hall Hlt. unfold NewSendState in Hnew.
  destruct (threshold =? 0); [discriminate |]. inversion Hnew; subst s0.
  set (s0 := {| minedTxs := ∅; nonceTooLowCount := 0;
                safeAbortNonceTooLowCount := threshold |}).
  destruct (applyOps_unmined E ops s0 Hall) as [Hm Hc];
    [reflexivity | simpl; lia | simpl; lia |].
  simpl in Hc. split; [exact Hm |]. split; [exact Hc |].
  rewrite ShouldAbortImmediately_true, applyOps_threshold, Hc. simpl. tauto.
Qed.

Lemma refusals_reach_threshold_witness :
  (NewSendState 3 = Ok fresh3 /\
   Forall (fun op => forall h, op <> OpTxMined h)
     [OpProcessSendError (Some rpcNonceTooLow); OpTxNotMined 7;
      OpProcessSendError (Some rpcUnavailable);
      OpProcessSendError (Some rpcNonceTooLow);
      OpProcessSendError (Some rpcNonceTooLow)] /\
   refusals gethErrNonceTooLow
     [OpProcessSendError (Some rpcNonceTooLow); OpTxNotMined 7;
      OpProcessSendError (Some rpcUnavailable);
      OpProcessSendError (Some rpcNonceTooLow);
      OpProcessSendError (Some rpcNonceTooLow)] < uint64_modulus) /\
  (minedTxs
     (applyOps gethErrNonceTooLow fresh3
        [OpProcessSendError (Some rpcNonceTooLow); OpTxNotMined 7;
         OpProcessSendError (Some rpcUnavailable);
         OpProcessSendError (Some rpcNonceTooLow);
         OpProcessSendError (Some rpcNonceTooLow)]) = ∅ /\
   nonceTooLowCount
     (applyOps gethErrNonceTooLow fresh3
        [OpProcessSendError (Some rpcNonceTooLow); OpTxNotMined 7;
         OpProcessSendError (Some rpcUnavailable);
         OpProcessSendError (Some rpcNonceTooLow);
         OpProcessSendError (Some rpcNonceTooLow)])
   = refusals gethErrNonceTooLow
       [OpProcessSendError (Some rpcNonceTooLow); OpTxNotMined 7;
        OpProcessSendError (Some rpcUnavailable);
        OpProcessSendError (Some rpcNonceTooLow);
        OpProcessSendError (Some rpcNonceTooLow)] /\
   (ShouldAbortImmediately
      (applyOps gethErrNonceTooLow fresh3
         [OpProcessSendError (Some rpcNonceTooLow); OpTxNotMined 7;
          OpProcessSendError (Some rpcUnavailable);
          OpProcessSendError (Some rpcNonceTooLow);
          OpProcessSendError (Some rpcNonceTooLow)]) = true <->
    3 <= refusals gethErrNonceTooLow
           [OpProcessSendError (Some rpcNonceTooLow); OpTxNotMined 7;
            OpProcessSendError (Some rpcUnavailable);
            OpProcessSendError (Some rpcNonceTooLow);
            OpProcessSendError (Some rpcNonceTooLow)])).
Proof.
  assert (H1 : NewSendState 3 = Ok fresh3) by reflexivity.
  assert (H2 : Forall (fun op => forall h, op <> OpTxMined h)
                 [OpProcessSendError (Some rpcNonceTooLow); OpTxNotMined 7;
                  OpProcessSendError (Some rpcUnavailable);
                  OpProcessSendError (Some rpcNonceTooLow);
                  OpProcessSendError (Some rpcNonceTooLow)])
    by (repeat constructor; discriminate).
  assert (H3 : refusals gethErrNonceTooLow
                 [OpProcessSendError (Some rpcNonceTooLow); OpTxNotMined 7;
                  OpProcessSendError (Some rpcUnavailable);
                  OpProcessSendError (Some rpcNonceTooLow);
                  OpProcessSendError (Some rpcNonceTooLow)] < uint64_modulus)
    by (vm_compute; reflexivity).
  split; [repeat split; assumption |].
  exact (refusals_reach_threshold gethErrNonceTooLow 3 fresh3 _ H1 H2 H3).
Defined.

(** ** [Send]: the causes of a cancellation *)

Section CausesFacts.

Variable E : error.
Variable m : SimpleTxManager.
Variable d0 : Driver.

Lemma sendRefusals_snoc (past : list event) (ev : event) :
  sendRefusals E (past ++ [ev]) =
  sendRefusals E past + (if isSendRefusal E ev then 1 else 0).
Proof.
  unfold sendRefusals. rewrite filter_app, length_app, filter_cons.
  destruct (isSendRefusal E ev).
  - rewrite decide_True by reflexivity. simpl. lia.
  - rewrite decide_False by discriminate. simpl. lia.
Qed.

Lemma abortCause_snoc (past : list event) (ev : event) :
  abortCause E m past -> abortCause E m (past ++ [ev]).
Proof.
  intros [(i & err & Hin & Hc) | Hle].
  - left. exists i, err. split; [apply in_or_app; now left | exact Hc].
  - right. rewrite sendRefusals_snoc. destruct (isSendRefusal E ev); lia.
Qed.

Lemma okErr_snoc (past : list event) (ev : event) (e : error) :
  okErr E m d0 past e -> okErr E m d0 (past ++ [ev]) e.
Proof.
  intros [H | [H | [H1 H2]]].
  - now left.
  - right; left. apply in_or_app. now left.
  - right; right. split; [exact H1 | now apply abortCause_snoc].
Qed.

Lemma pending_insert (l : list apc) (i : nat) (pc pc' : apc) :
  l !! i = Some pc ->
  pending E (<[ i := pc' ]> l) = pending E l - pendingOf E pc + pendingOf E pc'.
Proof.
  revert i. induction l as [| x l IH]; intros i Hlk; [discriminate |].
  destruct i as [| i]; simpl in *.
  - inversion Hlk; subst. lia.
  - rewrite (IH i Hlk). lia.
Qed.

Lemma pending_snoc (l : list apc) (pc : apc) :
  pending E (l ++ [pc]) = pending E l + pendingOf E pc.
Proof. induction l as [| x l IH]; simpl; [lia | rewrite IH; lia]. Qed.

(** An attempt that moves keeps the account when it keeps its share
    of it. *)
Lemma Accounted_moved (past : list event) (d : Driver) (i : nat) (resp : envResp)
    (pc pc' : apc) (s : SendState) (cx : option error) (ch : option Receipt)
    (out : list LogLine) :
  Accounted E m d0 past d ->
  attempts d !! i = Some pc ->
  0 <= nonceTooLowCount s ->
  nonceTooLowCount s + pendingOf E pc'
    <= nonceTooLowCount (sendState d) + pendingOf E pc
       + (if isSendRefusal E (EvAttempt i resp) then 1 else 0) ->
  safeAbortNonceTooLowCount s = safeAbortNonceTooLowCount (sendState d) ->
  (pc' = ACancel -> abortCause E m (past ++ [EvAttempt i resp])) ->
  (main d = MSelect -> forall e, cx = Some e ->
   okErr E m d0 (past ++ [EvAttempt i resp]) e) ->
  Accounted E m d0 (past ++ [EvAttempt i resp]) (moved d i pc' s cx ch out).
Proof.
  intros (H0 & Hsum & Hthr & Hcan & Hctx & Hres) Hlk Hs0 Hs Hst Hpc' Hcx.
  unfold Accounted; simpl.
  split; [exact Hs0 |]. split.
  { rewrite (pending_insert _ _ _ pc' Hlk), sendRefusals_snoc. lia. }
  split; [congruence |]. split.
  { apply Forall_insert; [| exact Hpc'].
    eapply Forall_impl; [exact Hcan |].
    intros x Hx Heq. apply abortCause_snoc. now apply Hx. }
  split; [exact Hcx |].
  intros e He. apply okErr_snoc. now apply Hres.
Qed.

Lemma Accounted_goes (past : list event) (d : Driver) (i : nat) (resp : envResp)
    (pc pc' : apc) (out : list LogLine) :
  Accounted E m d0 past d ->
  attempts d !! i = Some pc ->
  pendingOf E pc'
    <= pendingOf E pc + (if isSendRefusal E (EvAttempt i resp) then 1 else 0) ->
  (pc' = ACancel -> abortCause E m (past ++ [EvAttempt i resp])) ->
  Accounted E m d0 (past ++ [EvAttempt i resp]) (goes d i pc' out).
Proof.
  intros HA Hlk Hp Hpc'. unfold goes.
  pose proof HA as (H0 & _ & _ & _ & Hctx & _).
  eapply Accounted_moved; try eassumption; try lia; try reflexivity.
  intros Hm e He. apply okErr_snoc. now apply Hctx.
Qed.

Lemma wstep_counter (n : Z) (h : Hash) (cx : option error) (w w' : wpc)
    (resp : envResp) (s s' : SendState) (out : list LogLine) :
  wstep n h cx w resp (Some s) = Some (w', Some s', out) ->
  0 <= nonceTooLowCount s ->
  0 <= nonceTooLowCount s' <= nonceTooLowCount s /\
  safeAbortNonceTooLowCount s' = safeAbortNonceTooLowCount s.
Proof.
  intros Hws H0.
  destruct (wstep_with_state _ _ _ _ _ _ _ _ _ Hws) as [H | [H | H]];
    inversion H; subst; simpl.
  - split; [lia | reflexivity].
  - split; [lia | reflexivity].
  - rewrite TxNotMined_counter, TxNotMined_threshold.
    destruct (decide (resetsCounter (minedTxs s) h)); split; (lia || reflexivity).
Qed.

Local Ltac not_cancel := intros Hcancel; discriminate Hcancel.

Lemma Accounted_astep (past : list event) (d d' : Driver) (i : nat) (pc : apc)
    (resp : envResp) :
  Accounted E m d0 past d ->
  attempts d !! i = Some pc ->
  astep E m d i pc resp = Some d' ->
  Accounted E m d0 (past ++ [EvAttempt i resp]) d'.
Proof.
  intros HA Hlk Hast.
  pose proof HA as (H0 & Hsum & Hthr & Hcan & Hctx & Hres).
  destruct pc as [| tx | tx err | tx err | | tx w | tx r | | msg]; simpl in Hast.
  - (* AUpdateGasPrice *)
    destruct resp as [| [tx | err] | | | | |]; try discriminate.
    + inversion Hast; subst d'.
      eapply Accounted_goes; try eassumption; [simpl; lia | not_cancel].
    + destruct (isCancelErr err) eqn:Hc; inversion Hast; subst d'.
      * eapply Accounted_goes; try eassumption; [simpl; lia | not_cancel].
      * eapply Accounted_goes; try eassumption; [simpl; lia |].
        intros _. left. exists i, err. split; [| exact Hc].
        apply in_or_app. right. now left.
  - (* ASendTx *)
    destruct resp as [| | err | | | |]; try discriminate.
    inversion Hast; subst d'.
    eapply Accounted_goes; try eassumption; [| not_cancel].
    simpl. destruct err as [e |]; [| lia].
    destruct (Contains (Error e) (Error E)); lia.
  - (* AProcessSendError *)
    destruct resp; try discriminate. inversion Hast; subst d'.
    eapply Accounted_moved; try eassumption.
    + unfold ProcessSendError. destruct err as [e |]; [| exact H0].
      destruct (negb _); [exact H0 |]. simpl. apply wrap64_range.
    + simpl. unfold ProcessSendError. destruct err as [e |]; [| lia].
      destruct (Contains (Error e) (Error E)); simpl; [| lia].
      unfold add64.
      pose proof (wrap64_le (nonceTooLowCount (sendState d) + 1)). lia.
    + unfold ProcessSendError. destruct err as [e |]; [| reflexivity].
      destruct (negb _); reflexivity.
    + not_cancel.
    + intros Hm e He. apply okErr_snoc. now apply Hctx.
  - (* ACheckSendError *)
    destruct resp; try (destruct err; discriminate).
    destruct err as [err |].
    + destruct (isCancelErr err);
        [| destruct (ShouldAbortImmediately (sendState d)) eqn:Hab];
        inversion Hast; subst d';
        (eapply Accounted_goes; try eassumption; [simpl; lia |]);
        try not_cancel.
      intros _. apply abortCause_snoc. right.
      apply ShouldAbortImmediately_true in Hab as [_ Hle].
      assert (0 <= pending E (attempts d)).
      { clear. induction (attempts d) as [| x l IH]; simpl; [lia |].
        unfold pendingOf. destruct x as [| | ? [e |] | | | | | |]; try lia.
        destruct (Contains _ _); lia. }
      lia.
    + destruct (NewTicker (ReceiptQueryInterval (cfg m)));
        inversion Hast; subst d';
        (eapply Accounted_goes; try eassumption; [simpl; lia | not_cancel]).
  - (* ACancel *)
    destruct resp; try discriminate. inversion Hast; subst d'.
    eapply Accounted_moved; try eassumption.
    + simpl. lia.
    + reflexivity.
    + not_cancel.
    + intros Hm e He. apply okErr_snoc.
      destruct (ctxc d) as [e' |] eqn:Hc; simpl in He.
      * inversion He; subst e'. now apply Hctx.
      * inversion He; subst e. right; right. split; [reflexivity |].
        rewrite Forall_lookup in Hcan. eapply Hcan; [exact Hlk | reflexivity].
  - (* AWait *)
    assert (Hw : forall w' s' out,
               wstep (NumConfirmations (cfg m)) (TxHash tx) (ctxc d) w resp
                 (Some (sendState d)) = Some (w', Some s', out) ->
               Accounted E m d0 (past ++ [EvAttempt i resp])
                 (moved d i (AWait tx w') s' (ctxc d) (receiptChan d) out)).
    { intros w' s' out Hws.
      destruct (wstep_counter _ _ _ _ _ _ _ _ _ Hws H0) as [Hc Ht].
      eapply Accounted_moved; try eassumption.
      - lia.
      - cbn [pendingOf]. destruct (isSendRefusal E (EvAttempt i resp)); lia.
      - not_cancel.
      - intros Hm e He. apply okErr_snoc. now apply Hctx. }
    destruct w as [| rc er | rc | | rc er].
    1-4: destruct (wstep _ _ _ _ _ _) as [[[w' [s' |]] out] |] eqn:Hws;
      try discriminate; inversion Hast; subst d'; now apply Hw.
    destruct resp.
    2-7: destruct (wstep _ _ _ _ _ _) as [[[w' [s' |]] out] |] eqn:Hws;
      try discriminate; inversion Hast; subst d'; now apply Hw.
    destruct rc as [rc |]; inversion Hast; subst d';
      (eapply Accounted_goes; try eassumption; [simpl; lia | not_cancel]).
  - (* ADeliver *)
    destruct resp; try discriminate.
    destruct (receiptChan d) as [r0 |] eqn:Hchan; inversion Hast; subst d'.
    + eapply Accounted_goes; try eassumption; [simpl; lia | not_cancel].
    + eapply Accounted_moved; try eassumption.
      * simpl. lia.
      * reflexivity.
      * not_cancel.
      * intros Hm e He. apply okErr_snoc. now apply Hctx.
  - (* ADone *)
    destruct resp; discriminate.
  - (* APanic *)
    destruct resp; discriminate.
Qed.

End CausesFacts.

Section CausesOfCancellation.

Variable E : error.
Variable m : SimpleTxManager.

Lemma Accounted_step (d0 : Driver) (past : list event) (d d' : Driver)
    (ev : event) :
  Accounted E m d0 past d -> step E m d ev = Some d' ->
  Accounted E m d0 (past ++ [ev]) d'.
Proof.
  intros HA Hstep.
  destruct ev as [| | | | err | i resp].
  6: { simpl in Hstep. destruct (attempts d !! i) as [pc |] eqn:Hlk;
         [| discriminate]. eapply Accounted_astep; eassumption. }
  all: pose proof HA as (H0 & Hsum & Hthr & Hcan & Hctx & Hres).
  all: simpl in Hstep.
  - (* EvTick *)
    destruct (main d) eqn:Hm; try discriminate.
    assert (Hcan' : Forall (fun pc => pc = ACancel ->
                              abortCause E m (past ++ [EvTick])) (attempts d)).
    { eapply Forall_impl; [exact Hcan |].
      intros x Hx Heq. apply abortCause_snoc. now apply Hx. }
    destruct (IsWaitingForConfirmation (sendState d));
      inversion Hstep; subst d'; unfold Accounted; simpl;
      rewrite ?Hm, ?pending_snoc, sendRefusals_snoc; simpl.
    + repeat split; try assumption; try lia.
      * intros _ e He. apply okErr_snoc. now apply Hctx.
      * intros e He. discriminate.
    + repeat split; try assumption; try lia.
      * apply Forall_app. split; [exact Hcan' |].
        constructor; [discriminate | constructor].
      * intros _ e He. apply okErr_snoc. now apply Hctx.
      * intros e He. discriminate.
  - (* EvCtxDone *)
    destruct (main d) eqn:Hm; try discriminate.
    destruct (ctxc d) as [e |] eqn:He; [| discriminate].
    inversion Hstep; subst d'; unfold Accounted; simpl.
    rewrite sendRefusals_snoc; simpl.
    repeat split; try assumption; try lia.
    + eapply Forall_impl; [exact Hcan |].
      intros x Hx Heq. apply abortCause_snoc. now apply Hx.
    + discriminate.
    + intros e' He'. inversion He'; subst e'.
      apply okErr_snoc. now apply Hctx.
  - (* EvReceipt *)
    destruct (main d) eqn:Hm; try discriminate.
    destruct (receiptChan d) as [r |] eqn:Hr; [| discriminate].
    inversion Hstep; subst d'; unfold Accounted; simpl.
    rewrite sendRefusals_snoc; simpl.
    repeat split; try assumption; try lia.
    + eapply Forall_impl; [exact Hcan |].
      intros x Hx Heq. apply abortCause_snoc. now apply Hx.
    + discriminate.
    + intros e' He'. discriminate.
  - (* EvDefer *)
    destruct (main d) as [| res | res | res] eqn:Hm; try discriminate.
    + inversion Hstep; subst d'; unfold Accounted; simpl.
      rewrite sendRefusals_snoc; simpl.
      repeat split; try assumption; try lia.
      * eapply Forall_impl; [exact Hcan |].
        intros x Hx Heq. apply abortCause_snoc. now apply Hx.
      * discriminate.
      * intros e' He'. apply okErr_snoc. now apply Hres.
    + destruct (allDone (attempts d)); [| discriminate].
      inversion Hstep; subst d'; unfold Accounted; simpl.
      rewrite sendRefusals_snoc; simpl.
      repeat split; try assumption; try lia.
      * eapply Forall_impl; [exact Hcan |].
        intros x Hx Heq. apply abortCause_snoc. now apply Hx.
      * discriminate.
      * intros e' He'. apply okErr_snoc. now apply Hres.
  - (* EvParent *)
    destruct (parent d) as [e0 |] eqn:Hp; [discriminate |].
    inversion Hstep; subst d'; unfold Accounted; simpl.
    rewrite sendRefusals_snoc; simpl.
    repeat split; try assumption; try lia.
    + eapply Forall_impl; [exact Hcan |].
      intros x Hx Heq. apply abortCause_snoc. now apply Hx.
    + intros Hm e He. destruct (ctxc d) as [e1 |] eqn:Hc.
      * inversion He; subst e1. apply okErr_snoc. now apply Hctx.
      * inversion He; subst e. right; left.
        apply in_or_app. right. now left.
    + intros e He. apply okErr_snoc. now apply Hres.
Qed.

Lemma Accounted_start (ctx : option error) (d0 : Driver) :
  SendStart m ctx = Ok d0 -> Accounted E m d0 [] d0.
Proof.
  unfold SendStart, NewSendState. intros H.
  destruct (SafeAbortNonceTooLowCount (cfg m) =? 0); [discriminate |].
  inversion H; subst d0. unfold Accounted, sendRefusals; simpl.
  repeat split; try lia.
  - constructor; [discriminate | constructor].
  - intros _ e He. now left.
  - intros e He. discriminate.
Qed.

Lemma Accounted_run (d0 : Driver) (evs past : list event) (d d' : Driver) :
  Accounted E m d0 past d -> run E m d evs = Some d' ->
  Accounted E m d0 (past ++ evs) d'.
Proof.
  revert past d. induction evs as [| ev evs IH]; intros past d HA Hrun.
  - simpl in Hrun. inversion Hrun; subst d'. now rewrite app_nil_r.
  - simpl in Hrun. destruct (step E m d ev) as [d1 |] eqn:Hstep;
      [| discriminate].
    replace (past ++ ev :: evs) with ((past ++ [ev]) ++ evs)
      by (now rewrite <- app_assoc).
    eapply IH; [| exact Hrun]. eapply Accounted_step; eassumption.
Qed.

(** X16. Why [Send] returns an error. When [Send] returns a nil
    receipt and an error, the error is the one the caller's context
    ended with (at the call or during it), or it is
    [context.Canceled] and an attempt had one of the two reasons to
    cancel: [updateGasPrice] failed with an error that is not a
    cancellation, or [sendTx] has answered at least
    [SafeAbortNonceTooLowCount] errors that carry the [NonceTooLow]
    sentinel. *)
Theorem Send_error_has_cause (ctx : option error) (evs : list event)
    (e : error) :
  Send E m ctx evs = Ok (Some (None, Some e)) ->
  ctx = Some e \/ In (EvParent e) evs \/
  (e = Canceled /\
   (gasPriceFailed evs \/
    SafeAbortNonceTooLowCount (cfg m) <= sendRefusals E evs)).
Proof.
  intros H.
  destruct (Send_Ok_inv E m ctx evs _ H)
    as (d0 & d & Hstart & _ & Hrun & _ & Hret).
  pose proof (Accounted_run d0 evs [] d0 d (Accounted_start ctx d0 Hstart) Hrun)
    as (_ & _ & _ & _ & _ & Hres).
  simpl in Hres.
  assert (Hp0 : parent d0 = ctx).
  { unfold SendStart in Hstart. destruct (NewSendState _); [| discriminate].
    inversion Hstart; reflexivity. }
  unfold returned in Hret. destruct (main d) as [| r0 | r0 | r0] eqn:Hm;
    try discriminate.
  inversion Hret; subst r0.
  specialize (Hres e eq_refl). unfold okErr, abortCause in Hres.
  rewrite Hp0 in Hres. exact Hres.
Qed.

End CausesOfCancellation.

Lemma Send_error_has_cause_witness :
  Send gethErrNonceTooLow mgr6 None scheduleNonceAbort
    = Ok (Some (None, Some Canceled)) /\
  (@None error = Some Canceled \/ In (EvParent Canceled) scheduleNonceAbort \/
   (Canceled = Canceled /\
    (gasPriceFailed scheduleNonceAbort \/
     SafeAbortNonceTooLowCount (cfg mgr6)
       <= sendRefusals gethErrNonceTooLow scheduleNonceAbort))).
Proof.
  assert (H : Send gethErrNonceTooLow mgr6 None scheduleNonceAbort
              = Ok (Some (None, Some Canceled)))
    by (vm_compute; reflexivity).
  split; [exact H |].
  exact (Send_error_has_cause gethErrNonceTooLow mgr6 None scheduleNonceAbort
           Canceled H).
Defined.

(** ** [Send]: every run can come to its return *)

Section WindingDown.

Variable E : error.
Variable m : SimpleTxManager.

(** The query interval is positive: no attempt panics in the
    [time.NewTicker] of [waitMined]. *)
Hypothesis query_positive : 0 < ReceiptQueryInterval (cfg m).

Lemma NewTicker_positive (d : Z) : 0 < d -> NewTicker d = Ok tt.
Proof.
  intros Hd. unfold NewTicker.
  destruct (d <=? 0) eqn:Hq; [| reflexivity].
  apply Z.leb_le in Hq. lia.
Qed.

Lemma no_panic_crashed (l : list apc) :
  Forall (fun pc => isPanic pc = false) l -> crashed l = None.
Proof.
  induction 1 as [| pc l Hpc _ IH]; [reflexivity |].
  destruct pc; simpl in *; (exact IH || discriminate).
Qed.

(** With a positive query interval no attempt panics. *)
Lemma astep_no_panic (d d' : Driver) (i : nat) (pc : apc) (resp : envResp) :
  astep E m d i pc resp = Some d' ->
  exists pc' s cx ch out,
    d' = moved d i pc' s cx ch out /\ isPanic pc' = false.
Proof.
  intros Hast. unfold astep, goes in Hast.
  rewrite (NewTicker_positive _ query_positive) in Hast.
  repeat match type of Hast with
         | context [match ?x with _ => _ end] => destruct x eqn:?
         | context [if ?x then _ else _] => destruct x eqn:?
         end;
    try discriminate; inversion Hast;
    eexists _, _, _, _, _; (split; [reflexivity | reflexivity]).
Qed.

Lemma step_no_panic (d d' : Driver) (ev : event) :
  step E m d ev = Some d' ->
  Forall (fun pc => isPanic pc = false) (attempts d) ->
  Forall (fun pc => isPanic pc = false) (attempts d').
Proof.
  intros Hstep Hall. destruct ev as [| | | | err | i resp]; simpl in Hstep.
  - destruct (main d); try discriminate.
    destruct (IsWaitingForConfirmation _); inversion Hstep; subst d'; simpl;
      [assumption |].
    apply Forall_app. split; [assumption |]. repeat constructor.
  - destruct (main d), (ctxc d); inversion Hstep; subst d'; assumption.
  - destruct (main d), (receiptChan d); inversion Hstep; subst d'; assumption.
  - destruct (main d); try discriminate.
    + inversion Hstep; subst d'; assumption.
    + destruct (allDone _); inversion Hstep; subst d'; assumption.
  - destruct (parent d); inversion Hstep; subst d'; assumption.
  - destruct (attempts d !! i) as [pc |]; [| discriminate].
    apply astep_no_panic in Hstep as (pc' & s & cx & ch & out & -> & Hpc').
    simpl. now apply Forall_insert.
Qed.

Lemma run_no_panic (evs : list event) (d d' : Driver) :
  run E m d evs = Some d' ->
  Forall (fun pc => isPanic pc = false) (attempts d) ->
  Forall (fun pc => isPanic pc = false) (attempts d').
Proof.
  revert d. induction evs as [| ev evs IH]; intros d Hrun Hall.
  - simpl in Hrun. inversion Hrun; subst. assumption.
  - simpl in Hrun. destruct (step E m d ev) as [d1 |] eqn:Hstep;
      [| discriminate].
    apply (IH d1 Hrun). eapply step_no_panic; eassumption.
Qed.

(** With the context cancelled, an attempt that has not finished takes
    a step under the answer [windDown] gives, and is closer to its end
    afterwards. *)
Lemma astep_windDown (d : Driver) (i : nat) (pc : apc) (e : error) :
  ctxc d = Some e -> pc <> ADone -> isPanic pc = false ->
  exists pc' s ch out,
    astep E m d i pc (windDown pc) = Some (moved d i pc' s (Some e) ch out) /\
    (stepsLeft pc' < stepsLeft pc)%nat /\ isPanic pc' = false.
Proof.
  intros He Hnd Hnp.
  destruct pc as [| tx | tx [err |] | tx [err |] | | tx w | tx r | | msg];
    simpl; try contradiction; try discriminate.
  - eexists _, _, _, _. unfold goes. rewrite He.
    split; [reflexivity | split; [simpl; lia | reflexivity]].
  - eexists _, _, _, _. unfold goes. rewrite He.
    split; [reflexivity | split; [simpl; lia | reflexivity]].
  - eexists _, _, _, _. rewrite He.
    split; [reflexivity | split; [simpl; lia | reflexivity]].
  - eexists _, _, _, _. rewrite He.
    split; [reflexivity | split; [simpl; lia | reflexivity]].
  - unfold goes. rewrite He.
    destruct (isCancelErr err);
      [| destruct (ShouldAbortImmediately (sendState d))];
      eexists _, _, _, _;
      (split; [reflexivity | split; [simpl; lia | reflexivity]]).
  - rewrite (NewTicker_positive _ query_positive).
    eexists _, _, _, _. unfold goes. rewrite He.
    split; [reflexivity | split; [simpl; lia | reflexivity]].
  - eexists _, _, _, _. rewrite He. simpl.
    split; [reflexivity | split; [simpl; lia | reflexivity]].
  - destruct w as [| [rc |] er | rc | | rc er]; simpl; rewrite ?He.
    + eexists _, _, _, _.
      split; [reflexivity | split; [simpl; lia | reflexivity]].
    + eexists _, _, _, _.
      split; [reflexivity | split; [simpl; lia | reflexivity]].
    + destruct er as [er |];
        eexists _, _, _, _;
        (split; [reflexivity | split; [simpl; lia | reflexivity]]).
    + eexists _, _, _, _.
      split; [reflexivity | split; [simpl; lia | reflexivity]].
    + eexists _, _, _, _.
      split; [reflexivity | split; [simpl; lia | reflexivity]].
    + unfold goes. rewrite He.
      destruct rc as [rc |];
        eexists _, _, _, _;
        (split; [reflexivity | split; [simpl; lia | reflexivity]]).
  - unfold goes. rewrite He.
    destruct (receiptChan d);
      eexists _, _, _, _;
      (split; [reflexivity | split; [simpl; lia | reflexivity]]).
Qed.

Lemma attempt_winds_down (e : error) (k : nat) :
  forall (d : Driver) (i : nat) (pc : apc),
    (stepsLeft pc <= k)%nat -> isPanic pc = false -> ctxc d = Some e ->
    attempts d !! i = Some pc ->
    exists evs d',
      run E m d evs = Some d' /\
      attempts d' = <[ i := ADone ]> (attempts d) /\
      ctxc d' = Some e /\ main d' = main d.
Proof.
  induction k as [| k IH]; intros d i pc Hk Hnp He Hlk.
  - assert (pc = ADone) as ->.
    { destruct pc as [| | ? [?|] | ? [?|] | | ? [| [?|] ? | | |] | | |];
        simpl in Hk, Hnp; (reflexivity || lia || discriminate). }
    exists [], d. simpl. repeat split; try assumption.
    symmetry. now apply list_insert_id.
  - assert (Hdec : pc = ADone \/ pc <> ADone)
      by (destruct pc; (now left) || (right; discriminate)).
    destruct Hdec as [-> | Hnd].
    + exists [], d. simpl. repeat split; try assumption.
      symmetry. now apply list_insert_id.
    + destruct (astep_windDown d i pc e He Hnd Hnp)
        as (pc' & s & ch & out & Hast & Hlt & Hnp').
      set (d1 := moved d i pc' s (Some e) ch out) in *.
      assert (Hi : (i < length (attempts d))%nat)
        by (eapply lookup_lt_Some; eassumption).
      destruct (IH d1 i pc') as (evs & d' & Hrun & Hat & Hc & Hm).
      * lia.
      * exact Hnp'.
      * reflexivity.
      * simpl. now apply list_lookup_insert_eq.
      * exists (EvAttempt i (windDown pc) :: evs), d'.
        simpl. rewrite Hlk, Hast. fold d1.
        split; [exact Hrun |]. split; [| split; assumption].
        rewrite Hat. simpl. apply list_insert_insert_eq.
Qed.

Lemma attempts_wind_down (e : error) (n : nat) :
  forall d : Driver,
    ctxc d = Some e ->
    Forall (fun pc => isPanic pc = false) (attempts d) ->
    exists evs d',
      run E m d evs = Some d' /\
      length (attempts d') = length (attempts d) /\
      (forall j pc, (j < n)%nat -> attempts d' !! j = Some pc -> pc = ADone) /\
      (forall j, (n <= j)%nat -> attempts d' !! j = attempts d !! j) /\
      ctxc d' = Some e /\ main d' = main d.
Proof.
  induction n as [| n IH]; intros d He Hall.
  - exists [], d. simpl. repeat split; try assumption.
    intros j pc Hj. lia.
  - destruct (IH d He Hall)
      as (evs1 & d1 & Hrun1 & Hlen1 & Hdone1 & Hrest1 & He1 & Hm1).
    destruct (attempts d1 !! n) as [pc |] eqn:Hlk.
    + assert (Hnp : isPanic pc = false).
      { rewrite Hrest1 in Hlk by lia.
        rewrite Forall_lookup in Hall. now apply (Hall n pc). }
      destruct (attempt_winds_down e (stepsLeft pc) d1 n pc (le_n _) Hnp He1 Hlk)
        as (evs2 & d2 & Hrun2 & Hat2 & He2 & Hm2).
      exists (evs1 ++ evs2), d2.
      split; [rewrite run_app, Hrun1; exact Hrun2 |].
      split; [rewrite Hat2, length_insert; exact Hlen1 |].
      split.
      { intros j pc' Hj Hlk'. rewrite Hat2 in Hlk'.
        destruct (decide (j = n)) as [-> | Hne].
        - rewrite list_lookup_insert_eq in Hlk'
            by (eapply lookup_lt_Some; eassumption).
          now inversion Hlk'.
        - rewrite list_lookup_insert_ne in Hlk' by congruence.
          apply (Hdone1 j pc'); [lia | exact Hlk']. }
      split.
      { intros j Hj. rewrite Hat2.
        rewrite list_lookup_insert_ne by lia. apply Hrest1. lia. }
      split; [exact He2 | congruence].
    + exists evs1, d1. split; [exact Hrun1 |]. split; [exact Hlen1 |].
      split.
      { intros j pc' Hj Hlk'.
        destruct (decide (j = n)) as [-> | Hne]; [congruence |].
        apply (Hdone1 j pc'); [lia | exact Hlk']. }
      split; [intros j Hj; apply Hrest1; lia |].
      split; assumption.
Qed.

Lemma allDone_intro (l : list apc) :
  (forall j pc, l !! j = Some pc -> pc = ADone) -> allDone l = true.
Proof.
  intros H. unfold allDone. apply forallb_forall. intros pc Hin.
  apply list_elem_of_In, list_elem_of_lookup_1 in Hin as [j Hj].
  now rewrite (H j pc Hj).
Qed.

(** A cancelled [Send] in which no attempt has panicked can return. *)
Lemma cancelled_can_return (d : Driver) (e : error) :
  ctxc d = Some e ->
  Forall (fun pc => isPanic pc = false) (attempts d) ->
  exists evs d' res, run E m d evs = Some d' /\ returned d' = Some res.
Proof.
  intros He Hall.
  assert (Hwait : forall d1 res,
             ctxc d1 = Some e -> main d1 = MWait res ->
             Forall (fun pc => isPanic pc = false) (attempts d1) ->
             exists evs d' res', run E m d1 evs = Some d' /\
                                returned d' = Some res').
  { intros d1 res He1 Hm1 Hall1.
    destruct (attempts_wind_down e (length (attempts d1)) d1 He1 Hall1)
      as (evs & d2 & Hrun & Hlen & Hdone & _ & He2 & Hm2).
    assert (Ha : allDone (attempts d2) = true).
    { apply allDone_intro. intros j pc Hlk. apply (Hdone j pc); [| exact Hlk].
      rewrite <- Hlen. eapply lookup_lt_Some; eassumption. }
    eexists (evs ++ [EvDefer]), _, res.
    rewrite run_app, Hrun. simpl. rewrite Hm2, Hm1, Ha.
    split; reflexivity. }
  assert (Hcancel : forall d1 res,
             ctxc d1 = Some e -> main d1 = MCancel res ->
             Forall (fun pc => isPanic pc = false) (attempts d1) ->
             exists evs d' res', run E m d1 evs = Some d' /\
                                returned d' = Some res').
  { intros d1 res He1 Hm1 Hall1.
    set (d2 := withMain d1 (MWait res) (cancel (ctxc d1)) (receiptChan d1)
                 (attempts d1)).
    destruct (Hwait d2 res) as (evs & d' & res' & Hrun & Hret).
    - simpl. now rewrite He1.
    - reflexivity.
    - exact Hall1.
    - exists (EvDefer :: evs), d', res'. simpl. rewrite Hm1. fold d2.
      split; assumption. }
  destruct (main d) as [| res | res | res] eqn:Hm.
  - set (d1 := withMain d (MCancel (None, Some e)) (Some e) (receiptChan d)
                 (attempts d)).
    destruct (Hcancel d1 (None, Some e)) as (evs & d' & res' & Hrun & Hret);
      [reflexivity | reflexivity | exact Hall |].
    exists (EvCtxDone :: evs), d', res'. simpl. rewrite Hm, He. fold d1.
    split; assumption.
  - now apply (Hcancel d res).
  - now apply (Hwait d res).
  - exists [], d, res. simpl. unfold returned. rewrite Hm. split; reflexivity.
Qed.

Lemma step_parent_ctxc (d d' : Driver) (ev : event) :
  step E m d ev = Some d' ->
  (ctxc d = None -> parent d = None) ->
  ctxc d' = None -> parent d' = None.
Proof.
  intros Hstep Hinv Hc'.
  assert (Hc : ctxc d = None).
  { destruct (ctxc d) as [e |] eqn:He; [| reflexivity].
    rewrite (step_ctxc_sticky E m d d' ev e Hstep He) in Hc'. discriminate. }
  specialize (Hinv Hc).
  destruct ev as [| | | | err | i resp]; simpl in Hstep.
  - destruct (main d); try discriminate.
    destruct (IsWaitingForConfirmation _); inversion Hstep; subst d';
      assumption.
  - destruct (main d), (ctxc d); inversion Hstep; subst d'; assumption.
  - destruct (main d), (receiptChan d); inversion Hstep; subst d'; assumption.
  - destruct (main d); try discriminate.
    + inversion Hstep; subst d'; assumption.
    + destruct (allDone _); inversion Hstep; subst d'; assumption.
  - destruct (parent d); inversion Hstep; subst d'. simpl in Hc'.
    destruct (ctxc d); discriminate.
  - destruct (attempts d !! i) as [pc |]; [| discriminate].
    apply astep_shape in Hstep as (pc' & s & cx & ch & out & -> & _).
    exact Hinv.
Qed.

End WindingDown.

(** X17. With both intervals positive, so that no [time.NewTicker]
    panics, [Send] cannot get stuck. Every state that a run of [Send]
    reaches has a continuation in which the call returns: if the
    context is still live the caller ends it, the main loop takes the
    [Done] branch, each attempt winds down through cancellation errors
    of the hooks, failures of the backend and the [Done] branch of its
    [select], and the deferred [wg.Wait()] is passed. No attempt blocks
    on the channel or on the [SendState]. *)
Theorem Send_can_always_return (E : error) (m : SimpleTxManager)
    (ctx : option error) (evs : list event) (d0 d : Driver) :
  0 < ResubmissionTimeout (cfg m) ->
  0 < ReceiptQueryInterval (cfg m) ->
  SendStart m ctx = Ok d0 ->
  run E m d0 evs = Some d ->
  exists evs' res, Send E m ctx (evs ++ evs') = Ok (Some res).
Proof.
  intros Hresub Hquery Hstart Hrun.
  assert (Hall0 : Forall (fun pc => isPanic pc = false) (attempts d0)).
  { unfold SendStart in Hstart. destruct (NewSendState _); [| discriminate].
    inversion Hstart; subst; simpl. repeat constructor. }
  pose proof (run_no_panic E m Hquery evs d0 d Hrun Hall0) as Hall.
  assert (Hinv : ctxc d = None -> parent d = None).
  { assert (H0 : ctxc d0 = None -> parent d0 = None).
    { unfold SendStart in Hstart. destruct (NewSendState _); [| discriminate].
      inversion Hstart; subst; simpl. auto. }
    clear Hstart Hall0 Hall. revert d0 Hrun H0.
    induction evs as [| ev evs IH]; intros d0 Hrun H0.
    - simpl in Hrun. inversion Hrun; subst. exact H0.
    - simpl in Hrun. destruct (step E m d0 ev) as [d1 |] eqn:Hstep;
        [| discriminate].
      apply (IH d1 Hrun). eapply step_parent_ctxc; eassumption. }
  assert (Hfin : exists evs' d' res,
             run E m d evs' = Some d' /\ returned d' = Some res).
  { destruct (ctxc d) as [e |] eqn:He.
    - now apply (cancelled_can_return E m Hquery d e).
    - specialize (Hinv eq_refl).
      set (d1 := {| sendState := sendState d; ctxc := Some Canceled;
                    parent := Some Canceled; receiptChan := receiptChan d;
                    attempts := attempts d; main := main d;
                    logs := logs d |}).
      destruct (cancelled_can_return E m Hquery d1 Canceled eq_refl Hall)
        as (evs' & d' & res & Hrun' & Hret).
      exists (EvParent Canceled :: evs'), d', res.
      simpl. rewrite Hinv, He. fold d1. split; assumption. }
  destruct Hfin as (evs' & d' & res & Hrun' & Hret).
  exists evs', res. unfold Send.
  rewrite Hstart, (NewTicker_positive _ Hresub).
  rewrite run_app, Hrun, Hrun'.
  rewrite (no_panic_crashed _ (run_no_panic E m Hquery evs' d d' Hrun' Hall)), Hret.
  reflexivity.
Qed.

Lemma Send_can_always_return_witness :
  exists d0 d,
    (0 < ResubmissionTimeout (cfg mgr6) /\
     0 < ReceiptQueryInterval (cfg mgr6) /\
     SendStart mgr6 None = Ok d0 /\
     run gethErrNonceTooLow mgr6 d0 scheduleMidway = Some d) /\
    exists evs' res,
      Send gethErrNonceTooLow mgr6 None (scheduleMidway ++ evs') = Ok (Some res).
Proof.
  assert (H1 : 0 < ResubmissionTimeout (cfg mgr6)) by (simpl; lia).
  assert (H2 : 0 < ReceiptQueryInterval (cfg mgr6)) by (simpl; lia).
  destruct (SendStart mgr6 None) as [d0 | msg] eqn:Hstart.
  - destruct (run gethErrNonceTooLow mgr6 d0 scheduleMidway) as [d |] eqn:Hrun.
    + exists d0, d. split; [repeat split; (assumption || reflexivity) |].
      exact (Send_can_always_return gethErrNonceTooLow mgr6 None
               scheduleMidway d0 d H1 H2 Hstart Hrun).
    + vm_compute in Hstart. inversion Hstart; subst d0.
      vm_compute in Hrun. discriminate.
  - vm_compute in Hstart. discriminate.
Defined.

(** With a zero [ResubmissionTimeout] every [Send] panics in
    [time.NewTicker], whatever the schedule. *)
Example Send_panics_on_zero_timeout (ctx : option error) (evs : list event) :
  Send gethErrNonceTooLow {| cfg := mkConfig 0 1000 6 3 |} ctx evs
    = Panic "non-positive interval for NewTicker".
Proof. reflexivity. Qed.

(** ** [Send]: the hashes in [minedTxs] *)

Section KnownHashes.

Variable E : error.
Variable m : SimpleTxManager.

Lemma pricedIn_snoc (past : list event) (ev : event) (h : Hash) :
  pricedIn past h -> pricedIn (past ++ [ev]) h.
Proof.
  intros (i & tx & Hin & Hh). exists i, tx.
  split; [apply in_or_app; now left | exact Hh].
Qed.

(** The transaction of an attempt stays the same, or is the one the
    hook has just answered; the [SendState] gains at most the hash of
    that transaction. *)
Lemma astep_hashes (d d' : Driver) (i : nat) (pc : apc) (resp : envResp) :
  astep E m d i pc resp = Some d' ->
  exists pc',
    attempts d' = <[ i := pc' ]> (attempts d) /\
    (forall tx, txOf pc' = Some tx ->
                txOf pc = Some tx \/ resp = RGasPrice (inl tx)) /\
    (forall h, h ∈ minedTxs (sendState d') ->
               h ∈ minedTxs (sendState d) \/
               exists tx, txOf pc = Some tx /\ TxHash tx = h).
Proof.
  intros Hast.
  assert (Hg : forall pc' out,
             (forall tx, txOf pc' = Some tx ->
                         txOf pc = Some tx \/ resp = RGasPrice (inl tx)) ->
             exists pc'',
               attempts (goes d i pc' out) = <[ i := pc'' ]> (attempts d) /\
               (forall tx, txOf pc'' = Some tx ->
                           txOf pc = Some tx \/ resp = RGasPrice (inl tx)) /\
               (forall h, h ∈ minedTxs (sendState (goes d i pc' out)) ->
                          h ∈ minedTxs (sendState d) \/
                          exists tx, txOf pc = Some tx /\ TxHash tx = h)).
  { intros pc' out Htx. exists pc'. split; [reflexivity |].
    split; [exact Htx |]. intros h Hh. now left. }
  destruct pc as [| tx | tx err | tx err | | tx w | tx r | | msg]; simpl in Hast.
  - destruct resp as [| [tx | err] | | | | |]; try discriminate.
    + inversion Hast; subst d'. apply Hg.
      intros tx' Htx'. inversion Htx'; subst. now right.
    + destruct (isCancelErr err); inversion Hast; subst d'; apply Hg;
        intros tx' Htx'; discriminate.
  - destruct resp; try discriminate. inversion Hast; subst d'. apply Hg.
    intros tx' Htx'. now left.
  - destruct resp; try discriminate. inversion Hast; subst d'.
    exists (ACheckSendError tx err). split; [reflexivity |].
    split; [intros tx' Htx'; now left |].
    intros h Hh. left. simpl in Hh.
    now rewrite ProcessSendError_mined in Hh.
  - destruct resp; try (destruct err; discriminate).
    destruct err as [err |].
    + destruct (isCancelErr err);
        [| destruct (ShouldAbortImmediately (sendState d))];
        inversion Hast; subst d'; apply Hg; intros tx' Htx'; discriminate.
    + destruct (NewTicker (ReceiptQueryInterval (cfg m)));
        inversion Hast; subst d'; apply Hg; intros tx' Htx';
        [now left | discriminate].
  - destruct resp; try discriminate. inversion Hast; subst d'.
    exists ADone. split; [reflexivity |].
    split; [intros tx' Htx'; discriminate |]. intros h Hh. now left.
  - assert (Hw : forall w' s' out,
               wstep (NumConfirmations (cfg m)) (TxHash tx) (ctxc d) w resp
                 (Some (sendState d)) = Some (w', Some s', out) ->
               exists pc',
                 attempts (moved d i (AWait tx w') s' (ctxc d) (receiptChan d) out)
                 = <[ i := pc' ]> (attempts d) /\
                 (forall tx0, txOf pc' = Some tx0 ->
                    txOf (AWait tx w) = Some tx0 \/ resp = RGasPrice (inl tx0)) /\
                 (forall h,
                    h ∈ minedTxs (sendState
                          (moved d i (AWait tx w') s' (ctxc d) (receiptChan d) out)) ->
                    h ∈ minedTxs (sendState d) \/
                    exists tx0, txOf (AWait tx w) = Some tx0 /\ TxHash tx0 = h)).
    { intros w' s' out Hws. exists (AWait tx w'). split; [reflexivity |].
      split; [intros tx0 Htx0; now left |].
      intros h Hh. simpl in Hh.
      destruct (wstep_with_state _ _ _ _ _ _ _ _ _ Hws) as [H | [H | H]];
        inversion H; subst s'.
      - now left.
      - simpl in Hh. apply elem_of_union in Hh as [Hh | Hh]; [| now left].
        apply elem_of_singleton in Hh. right. exists tx. now split.
      - rewrite TxNotMined_set in Hh.
        apply elem_of_difference in Hh as [Hh _]. now left. }
    destruct w as [| rc er | rc | | rc er].
    1-4: destruct (wstep _ _ _ _ _ _) as [[[w' [s' |]] out] |] eqn:Hws;
      try discriminate; inversion Hast; subst d'; now apply Hw.
    destruct resp.
    2-7: destruct (wstep _ _ _ _ _ _) as [[[w' [s' |]] out] |] eqn:Hws;
      try discriminate; inversion Hast; subst d'; now apply Hw.
    destruct rc as [rc |]; inversion Hast; subst d'; apply Hg;
      intros tx' Htx'; [now left | discriminate].
  - destruct resp; try discriminate.
    destruct (receiptChan d) as [r0 |]; inversion Hast; subst d'.
    + apply Hg. intros tx' Htx'. discriminate.
    + exists ADone. split; [reflexivity |].
      split; [intros tx' Htx'; discriminate |]. intros h Hh. now left.
  - destruct resp; discriminate.
  - (* APanic *)
    destruct resp; discriminate.
Qed.

Lemma step_known_hashes (past : list event) (d d' : Driver) (ev : event) :
  step E m d ev = Some d' ->
  (forall h, h ∈ minedTxs (sendState d) -> pricedIn past h) /\
  Forall (fun pc => forall tx, txOf pc = Some tx -> pricedIn past (TxHash tx))
         (attempts d) ->
  (forall h, h ∈ minedTxs (sendState d') -> pricedIn (past ++ [ev]) h) /\
  Forall (fun pc => forall tx, txOf pc = Some tx ->
                               pricedIn (past ++ [ev]) (TxHash tx))
         (attempts d').
Proof.
  intros Hstep [Hset Hat].
  assert (Hset' : forall h, h ∈ minedTxs (sendState d) ->
                            pricedIn (past ++ [ev]) h)
    by (intros h Hh; apply pricedIn_snoc; now apply Hset).
  assert (Hat' : Forall (fun pc => forall tx, txOf pc = Some tx ->
                           pricedIn (past ++ [ev]) (TxHash tx)) (attempts d)).
  { eapply Forall_impl; [exact Hat |].
    intros pc Hpc tx Htx. apply pricedIn_snoc. now apply Hpc. }
  destruct ev as [| | | | err | i resp]; simpl in Hstep.
  - destruct (main d); try discriminate.
    destruct (IsWaitingForConfirmation _); inversion Hstep; subst d'; simpl.
    + split; assumption.
    + split; [assumption |]. apply Forall_app. split; [assumption |].
      constructor; [intros tx Htx; discriminate | constructor].
  - destruct (main d), (ctxc d); inversion Hstep; subst d'; split; assumption.
  - destruct (main d), (receiptChan d); inversion Hstep; subst d';
      split; assumption.
  - destruct (main d); try discriminate.
    + inversion Hstep; subst d'; split; assumption.
    + destruct (allDone _); inversion Hstep; subst d'; split; assumption.
  - destruct (parent d); inversion Hstep; subst d'; split; assumption.
  - destruct (attempts d !! i) as [pc |] eqn:Hlk; [| discriminate].
    assert (Hpc : forall tx, txOf pc = Some tx ->
                             pricedIn (past ++ [EvAttempt i resp]) (TxHash tx)).
    { rewrite Forall_lookup in Hat'. now apply (Hat' i pc). }
    apply astep_hashes in Hstep as (pc' & Hatt & Htx & Hh).
    split.
    + intros h Hin. destruct (Hh h Hin) as [Hold | (tx & Htxo & <-)];
        [now apply Hset' | now apply Hpc].
    + rewrite Hatt. apply Forall_insert; [exact Hat' |].
      intros tx Htx'. destruct (Htx tx Htx') as [Hold | ->];
        [now apply Hpc |].
      exists i, tx. split; [apply in_or_app; right; now left | reflexivity].
Qed.

(** X18. The [SendState] of a [Send] only ever holds hashes of its own
    transactions: in every state of every run, each hash in [minedTxs]
    is the hash of a transaction that [updateGasPrice] has answered
    during this call. *)
Theorem Send_minedTxs_are_priced
    (ctx : option error) (d0 d : Driver) (evs : list event) (h : Hash) :
  SendStart m ctx = Ok d0 ->
  run E m d0 evs = Some d ->
  h ∈ minedTxs (sendState d) ->
  pricedIn evs h.
Proof.
  intros Hstart Hrun Hin.
  assert (H0 : (forall h, h ∈ minedTxs (sendState d0) -> pricedIn [] h) /\
               Forall (fun pc => forall tx, txOf pc = Some tx ->
                                            pricedIn [] (TxHash tx))
                      (attempts d0)).
  { unfold SendStart, NewSendState in Hstart.
    destruct (SafeAbortNonceTooLowCount (cfg m) =? 0); [discriminate |].
    inversion Hstart; subst d0; simpl. split.
    - intros h' Hh'. exfalso. revert Hh'. apply not_elem_of_empty.
    - constructor; [intros tx Htx; discriminate | constructor]. }
  clear Hstart.
  assert (Hgen : forall past d1,
             run E m d1 evs = Some d ->
             (forall h, h ∈ minedTxs (sendState d1) -> pricedIn past h) /\
             Forall (fun pc => forall tx, txOf pc = Some tx ->
                                          pricedIn past (TxHash tx))
                    (attempts d1) ->
             forall h, h ∈ minedTxs (sendState d) -> pricedIn (past ++ evs) h).
  { clear. induction evs as [| ev evs IH]; intros past d1 Hrun HT h Hin.
    - simpl in Hrun. inversion Hrun; subst. rewrite app_nil_r.
      now apply (proj1 HT).
    - simpl in Hrun. destruct (step E m d1 ev) as [d2 |] eqn:Hstep;
        [| discriminate].
      replace (past ++ ev :: evs) with ((past ++ [ev]) ++ evs)
        by (now rewrite <- app_assoc).
      apply (IH (past ++ [ev]) d2 Hrun); [| exact Hin].
      eapply step_known_hashes; eassumption. }
  exact (Hgen [] d0 Hrun H0 h Hin).
Qed.

End KnownHashes.

Lemma Send_minedTxs_are_priced_witness :
  exists d0 d,
    (SendStart mgr6 None = Ok d0 /\
     run gethErrNonceTooLow mgr6 d0 scheduleMidway = Some d /\
     (7 ∈ minedTxs (sendState d))) /\
    pricedIn scheduleMidway 7.
Proof.
  destruct (SendStart mgr6 None) as [d0 | msg] eqn:Hstart.
  - destruct (run gethErrNonceTooLow mgr6 d0 scheduleMidway) as [d |] eqn:Hrun.
    + assert (Hin : 7 ∈ minedTxs (sendState d)).
      { vm_compute in Hstart. inversion Hstart; subst d0.
        vm_compute in Hrun. inversion Hrun; subst d.
        refine (bool_decide_unpack _ _). vm_compute. exact I. }
      exists d0, d. split; [repeat split; assumption |].
      exact (Send_minedTxs_are_priced gethErrNonceTooLow mgr6 None d0 d
               scheduleMidway 7 Hstart Hrun Hin).
    + vm_compute in Hstart. inversion Hstart; subst d0.
      vm_compute in Hrun. discriminate.
  - vm_compute in Hstart. discriminate.
Defined.

(** ** [SendState]: a variant that is mined and then lost *)

(** X19. [TxMined h] followed by [TxNotMined h] is not the identity.
    The set is back to what it was without [h], but when no other
    variant is mined the counter is cleared, whatever it had reached,
    and with a positive threshold the state does not tell to abort;
    only when another variant is still mined does the counter keep its
    value. *)
Theorem mined_then_lost (s : SendState) (h : Hash) :
  minedTxs (TxNotMined (TxMined s h) h) = minedTxs s ∖ {[ h ]} /\
  safeAbortNonceTooLowCount (TxNotMined (TxMined s h) h)
    = safeAbortNonceTooLowCount s /\
  (minedTxs s ∖ {[ h ]} = ∅ ->
   nonceTooLowCount (TxNotMined (TxMined s h) h) = 0 /\
   (0 < safeAbortNonceTooLowCount s ->
    ShouldAbortImmediately (TxNotMined (TxMined s h) h) = false)) /\
  (minedTxs s ∖ {[ h ]} <> ∅ ->
   nonceTooLowCount (TxNotMined (TxMined s h) h) = nonceTooLowCount s).
Proof.
  assert (Hset : minedTxs (TxMined s h) ∖ {[ h ]} = minedTxs s ∖ {[ h ]})
    by apply TxMined_footprint.
  split; [rewrite TxNotMined_set; exact Hset |].
  split; [rewrite TxNotMined_threshold; reflexivity |].
  split.
  - intros He.
    assert (Hc : nonceTooLowCount (TxNotMined (TxMined s h) h) = 0).
    { rewrite TxNotMined_counter.
      destruct (decide (resetsCounter (minedTxs (TxMined s h)) h))
        as [_ | Hn]; [reflexivity |].
      exfalso. apply Hn. split; [| now rewrite Hset].
      simpl. apply elem_of_union. left. now apply elem_of_singleton. }
    split; [exact Hc |]. intros Hpos.
    destruct (ShouldAbortImmediately (TxNotMined (TxMined s h) h)) eqn:Ha;
      [| reflexivity].
    apply ShouldAbortImmediately_true in Ha as [_ Hle].
    rewrite Hc, TxNotMined_threshold in Hle. simpl in Hle. lia.
  - intros Hne. rewrite TxNotMined_counter.
    destruct (decide (resetsCounter (minedTxs (TxMined s h)) h))
      as [[_ He] | _]; [| reflexivity].
    exfalso. apply Hne. now rewrite <- Hset.
Qed.
